(** * WildcardMatch: a shallow embedding of
      [python/wildcard_match/wildcard_match.py] and the properties of
      [WildcardMatch.match].

    Python values are modelled as follows.
    - integers are [Z];
    - [str] values (tokens and pattern pieces) are [string]; a character is a
      code point below 256;
    - sequences are [list]s, indexed by [Z] with Python's rules for negative
      indices and slices;
    - [None] for an absent maximum is [None : option Z];
    - [int] is the one of CPython 3.11 and later with its default limit: a
      string of more than 4300 digits raises [ValueError];
    - a call either returns, raises, or (for the fuel-bounded loops of the
      model only) runs out of fuel: type [outcome]. *)

From Stdlib Require Import ZArith List String Ascii Bool Lia.
From Stdlib Require Import DecimalString DecimalNat DecimalFacts DecimalPos DecimalN.
From Stdlib Require Import Permutation.
Import ListNotations.

#[local] Open Scope string_scope.
#[local] Open Scope Z_scope.

(** ** Outcomes of Python code *)

Inductive exception : Type :=
| ValueError
| KeyError
| IndexError
| TypeError
| UnboundLocalError.

Inductive outcome (A : Type) : Type :=
| Ret (a : A)
| Raise (e : exception)
| OutOfFuel.

Arguments Ret {A} a.
Arguments Raise {A} e.
Arguments OutOfFuel {A}.

Definition bind {A B : Type} (m : outcome A) (k : A -> outcome B) : outcome B :=
  match m with
  | Ret a => k a
  | Raise e => Raise e
  | OutOfFuel => OutOfFuel
  end.

Notation "x <- m ;; k" := (bind m (fun x => k))
  (at level 61, m at next level, right associativity).
Notation "' p <- m ;; k" := (bind m (fun x => match x with p => k end))
  (at level 61, p pattern, m at next level, right associativity).

(** ** [while] loops

    [while cond body fuel s] runs the loop [while cond(s): s = body(s)] for at
    most [fuel] iterations; [iterations] counts the executions of the body. *)

Section While.
Context {St : Type}.
Variable cond : St -> bool.
Variable body : St -> outcome St.

Fixpoint while (fuel : nat) (s : St) : outcome St :=
  if cond s then
    match fuel with
    | O => OutOfFuel
    | S fuel' => s' <- body s ;; while fuel' s'
    end
  else Ret s.

Fixpoint iterations (fuel : nat) (s : St) : nat :=
  if cond s then
    match fuel with
    | O => O
    | S fuel' =>
        match body s with
        | Ret s' => S (iterations fuel' s')
        | _ => 1%nat
        end
    end
  else O.
End While.

(** ** Python sequences *)

Definition len {A : Type} (l : list A) : Z := Z.of_nat (List.length l).

(** [l[i]]: a negative index counts from the end, an index out of range
    raises [IndexError]. *)
Definition getitem {A : Type} (l : list A) (i : Z) : outcome A :=
  let j := if i <? 0 then i + len l else i in
  if j <? 0 then Raise IndexError
  else match nth_error l (Z.to_nat j) with
       | Some x => Ret x
       | None => Raise IndexError
       end.

(** [l[i:]]: the start is clamped to the sequence. *)
Definition slice_from {A : Type} (l : list A) (i : Z) : list A :=
  let j := if i <? 0 then Z.max 0 (i + len l) else i in
  skipn (Z.to_nat j) l.

(** ** Python dictionaries with [str] keys, as association lists *)

Fixpoint dict_get {V : Type} (d : list (string * V)) (k : string) : option V :=
  match d with
  | [] => None
  | (k', v) :: d' => if String.eqb k k' then Some v else dict_get d' k
  end.

(** [k in d] *)
Definition contains {V : Type} (d : list (string * V)) (k : string) : bool :=
  match dict_get d k with Some _ => true | None => false end.

(** [d[k]] *)
Definition dict_getitem {V : Type} (d : list (string * V)) (k : string) : outcome V :=
  match dict_get d k with
  | Some v => Ret v
  | None => Raise KeyError
  end.

(** ** Strings: truth value, [int], and the regular expression *)

(** The truth value of a [str]: non-empty. *)
Definition truthy (s : string) : bool :=
  match s with
  | EmptyString => false
  | String _ _ => true
  end.

(** [\d] on code points below 256: the ten ASCII digits. *)
Definition is_digit (c : ascii) : bool :=
  let n := nat_of_ascii c in (48 <=? n)%nat && (n <=? 57)%nat.

(** [\s] of a [str] pattern on code points below 256: tab, line feed,
    vertical tab, form feed, carriage return, the four separators
    0x1c-0x1f, space, next-line 0x85 and no-break space 0xa0. *)
Definition is_space (c : ascii) : bool :=
  let n := nat_of_ascii c in
  ((9 <=? n)%nat && (n <=? 13)%nat)
  || ((28 <=? n)%nat && (n <=? 32)%nat)
  || (n =? 133)%nat
  || (n =? 160)%nat.

Definition digit_value (c : ascii) : Z := Z.of_nat (nat_of_ascii c) - 48.

Fixpoint py_int_acc (s : string) (acc : Z) : Z :=
  match s with
  | EmptyString => acc
  | String c r => py_int_acc r (10 * acc + digit_value c)
  end.

(** The number a string of decimal digits denotes. *)
Definition digits_value (s : string) : Z := py_int_acc s 0.

(** [sys.get_int_max_str_digits()], the default. *)
Definition int_max_str_digits : nat := 4300.

(** The string is not longer than [int] accepts. *)
Definition digits_fit (s : string) : bool :=
  (String.length s <=? int_max_str_digits)%nat.

(** [int(s)], for the only arguments the program gives it: the text of a
    group of digits that is not empty.  A string of more digits than
    [int_max_str_digits], leading zeros counted, raises [ValueError]. *)
Definition py_int (s : string) : outcome Z :=
  if digits_fit s then Ret (digits_value s) else Raise ValueError.

(** [\s*]: the longest run of whitespace is skipped. *)
Fixpoint skip_spaces (s : string) : string :=
  match s with
  | String c r => if is_space c then skip_spaces r else s
  | EmptyString => s
  end.

(** A group of digits [\d*]: the longest run of digits, and what follows
    it. *)
Fixpoint take_digits (s : string) : string * string :=
  match s with
  | String c r =>
      if is_digit c then let '(d, rest) := take_digits r in (String c d, rest)
      else (EmptyString, s)
  | EmptyString => (EmptyString, s)
  end.

(** One literal character. *)
Definition expect (c : ascii) (s : string) : option string :=
  match s with
  | String c' r => if Ascii.eqb c' c then Some r else None
  | EmptyString => None
  end.

(** The groups of a match object of [variant_expression]. *)
Record match_object : Type := MatchObject {
  group_min : string;
  group_max : string
}.

Definition option_bind {A B : Type} (o : option A) (k : A -> option B) : option B :=
  match o with
  | Some a => k a
  | None => None
  end.

(** [variant_expression.match( piece )].  The expression is: whitespace, an
    opening brace, whitespace, the digits of group [min], whitespace, a
    comma, whitespace, the digits of group [max], whitespace, a closing brace,
    whitespace; every whitespace and either group of digits may be empty.  It
    is tried at the start of the piece and need not reach its end.  The classes
    [\s], [\d] and the three punctuation characters are pairwise disjoint, so
    the longest match of every starred class is the only one that can
    succeed. *)
Definition variant_expression_match (piece : string) : option match_object :=
  option_bind (expect "{" (skip_spaces piece)) (fun s1 =>
  let '(mn, s2) := take_digits (skip_spaces s1) in
  option_bind (expect "," (skip_spaces s2)) (fun s3 =>
  let '(mx, s4) := take_digits (skip_spaces s3) in
  option_bind (expect "}" (skip_spaces s4)) (fun _ =>
  Some (MatchObject mn mx)))).

(** ** The class [WildcardMatch] *)

Module WildcardMatch.

(** A [(minimum, maximum)] pair; the maximum [None] is "no maximum". *)
Definition bounds : Type := (Z * option Z)%type.

Definition _get_variant_lengths (mo : match_object) : outcome bounds :=
  minimum_variant_length <-
    (if truthy (group_min mo) then py_int (group_min mo) else Ret 0) ;;
  maximum_variant_length <-
    (if truthy (group_max mo)
     then (maximum <- py_int (group_max mo) ;; Ret (Some maximum))
     else Ret None) ;;
  match maximum_variant_length with
  | Some mx =>
      if mx <? minimum_variant_length then Raise ValueError
      else Ret (minimum_variant_length, maximum_variant_length)
  | None => Ret (minimum_variant_length, maximum_variant_length)
  end.

(** One turn of the loop of [_sum_variant_lengths]. *)
Definition sum_step (acc next : bounds) : bounds :=
  let '(minimum, maximum) := acc in
  let '(next_min, next_max) := next in
  let minimum := minimum + next_min in
  let maximum :=
    match next_max with
    | Some nm =>
        match maximum with
        | None => Some nm
        | Some m => Some (m + nm)
        end
    | None => maximum
    end in
  (minimum, maximum).

(** [_sum_variant_lengths( *args )]: [None] without arguments. *)
Definition _sum_variant_lengths (args : list bounds) : option bounds :=
  match args with
  | [] => None
  | first :: rest => Some (fold_left sum_step rest first)
  end.

Definition variant_rewrite_rules : list (string * bounds) :=
  [ ("*", (0, None)); ("?", (0, Some 1)); ("+", (1, None)) ].

(** [piece in variant_rewrite_rules or mo is not None] *)
Definition is_variant (piece : string) (mo : option match_object) : bool :=
  contains variant_rewrite_rules piece
  || match mo with Some _ => true | None => false end.

(** The two-way choice of lines 74-77 and of lines 86-89: the dictionary is
    asked for [key] when there is no match object. *)
Definition variant_lengths (key : string) (mo : option match_object) : outcome bounds :=
  match mo with
  | None => dict_getitem variant_rewrite_rules key
  | Some m => _get_variant_lengths m
  end.

(** The variables of the main loop. *)
Record state : Type := State {
  target_index : Z;
  piece_index : Z;
  match_possible : bool
}.

(** The variables of the loop that collapses a sequence of variant
    symbols. *)
Record run_state : Type := RunState {
  rs_piece_index : Z;
  rs_next_piece : string;
  rs_mo : option match_object;
  rs_minimum : Z;
  rs_maximum : option Z
}.

(** What the collapsing leaves behind: [next_piece] is unbound ([None]) when
    the first variant symbol is the last piece. *)
Record run : Type := Run {
  run_piece_index : Z;
  run_next_piece : option string;
  run_minimum : Z;
  run_maximum : option Z
}.

Section Match.
Variable fuel : nat.
Variable target : list string.
Variable pattern : list string.

Let pattern_length : Z := len pattern.
Let target_length : Z := len target.

(** Line 85. *)
Definition collapse_cond (rs : run_state) : bool :=
  (rs_piece_index rs <? pattern_length)
  && is_variant (rs_next_piece rs) (rs_mo rs).

(** Lines 86-97; [piece] is the first piece of the sequence. *)
Definition collapse_body (piece : string) (rs : run_state) : outcome run_state :=
  new <- variant_lengths piece (rs_mo rs) ;;
  match _sum_variant_lengths [ (rs_minimum rs, rs_maximum rs); new ] with
  | None => Raise TypeError
  | Some (minimum, maximum) =>
      let piece_index := rs_piece_index rs + 1 in
      if piece_index <? pattern_length then
        next_piece <- getitem pattern piece_index ;;
        Ret (RunState piece_index next_piece
               (variant_expression_match next_piece) minimum maximum)
      else
        Ret (RunState piece_index (rs_next_piece rs) (rs_mo rs) minimum maximum)
  end.

(** Lines 74-97. *)
Definition collapse_variants (st : state) (piece : string)
    (mo : option match_object) : outcome run :=
  '(minimum, maximum) <- variant_lengths piece mo ;;
  let piece_index := piece_index st + 1 in
  if piece_index <? pattern_length then
    next_piece <- getitem pattern piece_index ;;
    rs <- while collapse_cond (collapse_body piece) fuel
            (RunState piece_index next_piece
               (variant_expression_match next_piece) minimum maximum) ;;
    Ret (Run (rs_piece_index rs) (Some (rs_next_piece rs))
           (rs_minimum rs) (rs_maximum rs))
  else
    Ret (Run piece_index None minimum maximum).

(** Line 115; the state is [(next_piece_matched, target_index)]. *)
Definition scan_cond (s : bool * Z) : bool :=
  negb (fst s) && (snd s <? target_length).

(** Lines 116-117. *)
Definition scan_body (next_piece : option string) (s : bool * Z) : outcome (bool * Z) :=
  t <- getitem target (snd s) ;;
  match next_piece with
  | None => Raise UnboundLocalError
  | Some np => Ret (String.eqb t np, snd s + 1)
  end.

(** Lines 99-123. *)
Definition consume_run (st : state) (r : run) : outcome state :=
  let piece_index := run_piece_index r in
  let minimum := run_minimum r in
  let maximum := run_maximum r in
  if piece_index =? pattern_length then
    let remaining_target_amount := len (slice_from target (target_index st)) in
    if (remaining_target_amount >=? minimum)
       && match maximum with
          | None => true
          | Some mx => mx <=? remaining_target_amount
          end
    then
      match maximum with
      | None => Ret (State target_length piece_index (match_possible st))
      | Some mx => Ret (State (target_index st + mx) piece_index (match_possible st))
      end
    else Ret (State (target_index st) piece_index false)
  else
    let target_index := target_index st + minimum in
    match maximum with
    | None =>
        '(next_piece_matched, target_index) <-
          while scan_cond (scan_body (run_next_piece r)) fuel (false, target_index) ;;
        Ret (State target_index
               (if next_piece_matched then piece_index + 1 else piece_index)
               next_piece_matched)
    | Some mx =>
        Ret (State (target_index + (mx - minimum)) piece_index (match_possible st))
    end.

(** Line 69. *)
Definition loop_cond (st : state) : bool :=
  match_possible st
  && (piece_index st <? pattern_length)
  && (target_index st <? target_length).

(** Lines 70-128. *)
Definition loop_body (st : state) : outcome state :=
  piece <- getitem pattern (piece_index st) ;;
  let mo := variant_expression_match piece in
  if is_variant piece mo then
    r <- collapse_variants st piece mo ;;
    consume_run st r
  else
    t <- getitem target (target_index st) ;;
    if String.eqb t piece then
      Ret (State (target_index st + 1) (piece_index st + 1) (match_possible st))
    else
      Ret (State (target_index st) (piece_index st) false).

Definition initial : state := State 0 0 true.

(** Line 130. *)
Definition result_of (st : state) : bool :=
  (target_index st >=? target_length) && (piece_index st >=? pattern_length).

(** [match] with every loop allowed [fuel] turns. *)
Definition match_fuel : outcome bool :=
  st <- while loop_cond loop_body fuel initial ;;
  Ret (result_of st).

(** The number of turns of the main loop. *)
Definition main_loop_turns : nat :=
  iterations loop_cond loop_body fuel initial.
End Match.

(** [WildcardMatch.match( target, pattern )].  No loop of the program takes
    more turns than the two sequences have elements together (lemma
    [match_fuel_enough] below), which is the fuel given here. *)
Definition match_ (target pattern : list string) : outcome bool :=
  match_fuel (List.length target + List.length pattern) target pattern.

End WildcardMatch.

Import WildcardMatch.

(** ** Definitions used to state the properties *)

(** Python's [str] of a natural number. *)
Definition str (n : N) : string := NilZero.string_of_uint (N.to_uint n).

(** The range form with both bounds, and with the maximum left out. *)
Definition range_piece (m n : N) : string := "{" ++ str m ++ "," ++ str n ++ "}".
Definition open_range_piece (m : N) : string := "{" ++ str m ++ ",}".

(** The numbers [int] reads back from their [str]: those of at most
    [int_max_str_digits] digits. *)
Definition int_limit : N := 10 ^ N.of_nat int_max_str_digits.

(** A string of decimal digits. *)
Fixpoint all_digits (s : string) : bool :=
  match s with
  | EmptyString => true
  | String c r => is_digit c && all_digits r
  end.

(** Neither bound of a variant symbol is negative. *)
Definition bounds_ok (b : bounds) : Prop :=
  0 <= fst b /\ forall x, snd b = Some x -> 0 <= x.

(** The exceptions a pattern can cause. *)
Definition pattern_error (e : exception) : Prop := e = ValueError \/ e = KeyError.

(** What holds of the variables of the collapsing loop, entered after the
    piece at index [first]. *)
Definition collapse_inv (pattern : list string) (first : Z) (rs : run_state) : Prop :=
  first < rs_piece_index rs <= len pattern
  /\ bounds_ok (rs_minimum rs, rs_maximum rs)
  /\ rs_mo rs = variant_expression_match (rs_next_piece rs)
  /\ (rs_piece_index rs < len pattern ->
      getitem pattern (rs_piece_index rs) = Ret (rs_next_piece rs)).

(** The measure of the main loop: the pieces that are left, as long as
    the loop goes on. *)
Definition main_measure (target pattern : list string) (st : state) : nat :=
  if loop_cond target pattern st then Z.to_nat (len pattern - piece_index st)
  else O.

Definition main_inv (st : state) : Prop :=
  0 <= target_index st /\ 0 <= piece_index st.

(** A range form whose maximum is present and less than its minimum: the
    condition of line 18 on the groups of the piece. *)
Definition invalid_range (piece : string) : bool :=
  match variant_expression_match piece with
  | Some mo =>
      truthy (group_max mo)
      && (digits_value (group_max mo)
          <? (if truthy (group_min mo) then digits_value (group_min mo) else 0))
  | None => false
  end.

(** A piece that is no variant symbol: the test of lines 73 and 85 fails. *)
Definition is_literal (piece : string) : bool :=
  negb (is_variant piece (variant_expression_match piece)).

(** The bounds lines 70-97 compute for the sequence of variant symbols at the
    start of a pattern. *)
Definition effective_constraint (pattern : list string) : outcome bounds :=
  piece <- getitem pattern 0 ;;
  r <- collapse_variants (List.length pattern) pattern initial piece
         (variant_expression_match piece) ;;
  Ret (run_minimum r, run_maximum r).

(** The bounds of a sequence of variant symbols as the specification words
    them (section 3): the minimums are added; the maximums are added when
    all are finite, and the sum has no maximum as soon as one symbol has
    none. *)
Definition spec_add (a b : bounds) : bounds :=
  (fst a + fst b,
   match snd a, snd b with
   | Some x, Some y => Some (x + y)
   | _, _ => None
   end).

Definition spec_piece_bounds (piece : string) : option bounds :=
  match dict_get variant_rewrite_rules piece with
  | Some b => Some b
  | None =>
      match variant_expression_match piece with
      | Some mo =>
          match _get_variant_lengths mo with
          | Ret b => Some b
          | _ => None
          end
      | None => None
      end
  end.

Fixpoint spec_run_from (acc : bounds) (pieces : list string) : option bounds :=
  match pieces with
  | [] => Some acc
  | piece :: rest =>
      match spec_piece_bounds piece with
      | Some b => spec_run_from (spec_add acc b) rest
      | None => None
      end
  end.

Definition spec_run_constraint (pieces : list string) : option bounds :=
  match pieces with
  | [] => None
  | piece :: rest =>
      match spec_piece_bounds piece with
      | Some b => spec_run_from b rest
      | None => None
      end
  end.

(** The bounds of a piece that is a range form with valid bounds. *)
Definition range_bounds (piece : string) : option bounds :=
  match variant_expression_match piece with
  | Some mo =>
      match _get_variant_lengths mo with
      | Ret b => Some b
      | _ => None
      end
  | None => None
  end.

(** The bounds the program gives a sequence of variant symbols whose bounds
    are [bs]: the minimums are added; the maximums that are present are
    added, a missing maximum adds nothing, and the sum has no maximum only
    when no symbol has one. *)
Definition unbounded (b : bounds) : bool :=
  match snd b with
  | Some _ => false
  | None => true
  end.

Definition finite_maximum (b : bounds) : Z :=
  match snd b with
  | Some x => x
  | None => 0
  end.

Definition summed_bounds (bs : list bounds) : bounds :=
  (fold_right Z.add 0 (map fst bs),
   if forallb unbounded bs then None
   else Some (fold_right Z.add 0 (map finite_maximum bs))).


(** A string of whitespace. *)
Fixpoint all_spaces (s : string) : bool :=
  match s with
  | EmptyString => true
  | String c r => is_space c && all_spaces r
  end.

(** ** The helpers of the test suite, [test/__main__.py] *)

(** [s.split( sep )] for a separator of one character: the pieces between
    the occurrences of the separator, at least one piece. *)
Fixpoint split (sep : ascii) (s : string) : list string :=
  match s with
  | EmptyString => [EmptyString]
  | String c r =>
      if Ascii.eqb c sep then EmptyString :: split sep r
      else
        match split sep r with
        | piece :: pieces => String c piece :: pieces
        | [] => [String c EmptyString]
        end
  end.

(** [sep.join( pieces )]. *)
Fixpoint join (sep : ascii) (pieces : list string) : string :=
  match pieces with
  | [] => EmptyString
  | [piece] => piece
  | piece :: rest => piece ++ String sep (join sep rest)
  end.

(** [_prepare_parameters]: every parameter is split at the dots. *)
Definition _prepare_parameters (params : list string) : list (list string) :=
  map (split ".") params.

(** The call [WildcardMatch.match( *self._prepare_parameters( target, pattern ) )]
    of [_test_match__positive] and [_test_match__negative]. *)
Definition match_prepared (target pattern : string) : outcome bool :=
  match _prepare_parameters [target; pattern] with
  | [t; p] => match_ t p
  | _ => Raise TypeError
  end.

(** A character occurs in a string. *)
Fixpoint occurs (c : ascii) (s : string) : bool :=
  match s with
  | EmptyString => false
  | String c' r => Ascii.eqb c' c || occurs c r
  end.

(** The number of occurrences of a character in a string. *)
Fixpoint count (c : ascii) (s : string) : nat :=
  match s with
  | EmptyString => O
  | String c' r => ((if Ascii.eqb c' c then 1 else 0) + count c r)%nat
  end.

(** The state of the main loop with both indices moved by [k]. *)
Definition shift (k : Z) (st : state) : state :=
  State (target_index st + k) (piece_index st + k) (match_possible st).

Definition shift_run_state (k : Z) (rs : run_state) : run_state :=
  RunState (rs_piece_index rs + k) (rs_next_piece rs) (rs_mo rs)
    (rs_minimum rs) (rs_maximum rs).

Definition shift_run (k : Z) (r : run) : run :=
  Run (run_piece_index r + k) (run_next_piece r) (run_minimum r) (run_maximum r).

Definition shift_scan (k : Z) (s : bool * Z) : bool * Z := (fst s, snd s + k).

(** The outcome with its value changed by [f]. *)
Definition omap {A B : Type} (f : A -> B) (m : outcome A) : outcome B :=
  match m with
  | Ret a => Ret (f a)
  | Raise e => Raise e
  | OutOfFuel => OutOfFuel
  end.

(** A piece that is one of the predefined symbols, and a piece that is a
    range form. *)
Definition is_symbol (piece : string) : bool :=
  contains variant_rewrite_rules piece.

Definition is_range (piece : string) : bool :=
  match variant_expression_match piece with
  | Some _ => true
  | None => false
  end.

(** Equality of two sequences of tokens, [==] on lists of [str]. *)
Fixpoint list_eqb (l1 l2 : list string) : bool :=
  match l1, l2 with
  | [], [] => true
  | x :: r1, y :: r2 => String.eqb x y && list_eqb r1 r2
  | _, _ => false
  end.

(** Neither group of digits of the piece is longer than [int] accepts. *)
Definition range_digits_fit (piece : string) : bool :=
  match variant_expression_match piece with
  | Some mo => digits_fit (group_min mo) && digits_fit (group_max mo)
  | None => true
  end.

(** No range form of the pattern has a maximum less than its minimum or a
    bound of more digits than [int] accepts. *)
Definition ranges_valid (pattern : list string) : bool :=
  forallb (fun piece => negb (invalid_range piece) && range_digits_fit piece) pattern.

(** The pattern has no range form, or it has no predefined symbol. *)
Definition unmixed (pattern : list string) : bool :=
  forallb (fun piece => negb (is_range piece)) pattern
  || forallb (fun piece => negb (is_symbol piece)) pattern.

(** The index of the first token equal to [lit], [tokens.index( lit )]
    where there is one. *)
Fixpoint index_of (lit : string) (tokens : list string) : option nat :=
  match tokens with
  | [] => None
  | t :: rest =>
      if String.eqb t lit then Some O
      else match index_of lit rest with
           | Some i => Some (S i)
           | None => None
           end
  end.

(** The states a loop passes through, from a first one on. *)
Inductive reaches {St : Type} (cond : St -> bool) (body : St -> outcome St) :
    St -> St -> Prop :=
| reaches_here (s : St) : reaches cond body s s
| reaches_turn (s s1 s2 : St) :
    cond s = true -> body s = Ret s1 -> reaches cond body s1 s2 ->
    reaches cond body s s2.

(** The lookup of lines 74-77 and 86-89 gives bounds. *)
Definition resolves (key piece : string) : bool :=
  match variant_lengths key (variant_expression_match piece) with
  | Ret _ => true
  | _ => false
  end.

(** A sequence of variant symbols that the collapsing resolves without an
    exception: the first is a variant symbol with bounds, and every further
    one is a variant symbol for which the lookup of lines 86-89, asked with
    the first piece, gives bounds. *)
Definition resolved_run (pieces : list string) : bool :=
  match pieces with
  | [] => true
  | first :: more =>
      resolves first first
      && forallb (fun piece =>
                    negb (is_literal piece) && resolves first piece) more
  end.

(** ** Facts about [while] *)

Section WhileFacts.
Context {St : Type}.
Variable cond : St -> bool.
Variable body : St -> outcome St.

Lemma while_exit (fuel : nat) (s : St) :
  cond s = false -> while cond body fuel s = Ret s.
Proof. intros H. destruct fuel; simpl; rewrite H; reflexivity. Qed.

Lemma while_step (fuel : nat) (s : St) :
  cond s = true ->
  while cond body (S fuel) s = (s' <- body s ;; while cond body fuel s').
Proof. intros H. simpl. rewrite H. reflexivity. Qed.

Lemma iterations_exit (fuel : nat) (s : St) :
  cond s = false -> iterations cond body fuel s = O.
Proof. intros H. destruct fuel; simpl; rewrite H; reflexivity. Qed.

Lemma iterations_le_fuel (fuel : nat) (s : St) :
  (iterations cond body fuel s <= fuel)%nat.
Proof.
  revert s. induction fuel as [|fuel IH]; intros s; simpl.
  - destruct (cond s); lia.
  - destruct (cond s); [|lia].
    destruct (body s) as [s'| |]; [|lia|lia].
    specialize (IH s'). lia.
Qed.

(** Partial correctness: an invariant of the body holds when the loop
    returns, together with the negation of the condition; an exception of
    the loop is one of the body. *)
Lemma while_outcome (I : St -> Prop) (P : exception -> Prop) :
  (forall s, I s -> cond s = true ->
     match body s with
     | Ret s' => I s'
     | Raise e => P e
     | OutOfFuel => True
     end) ->
  forall fuel s,
    I s ->
    match while cond body fuel s with
    | Ret s' => I s' /\ cond s' = false
    | Raise e => P e
    | OutOfFuel => True
    end.
Proof.
  intros Hstep fuel. induction fuel as [|fuel IH]; intros s Hs.
  - cbn [while]. destruct (cond s) eqn:Hc; auto.
  - cbn [while]. destruct (cond s) eqn:Hc; auto.
    specialize (Hstep s Hs Hc).
    destruct (body s) as [s1| |]; cbn [bind]; auto.
    apply IH. exact Hstep.
Qed.

(** Total correctness: when the measure is positive as long as the
    condition holds, and every turn of the body keeps the invariant and
    lowers the measure, fuel above the measure is enough, and the loop
    takes no more turns than the measure. *)
Lemma while_total (I : St -> Prop) (mu : St -> nat) :
  (forall s, I s -> cond s = true ->
     (0 < mu s)%nat
     /\ match body s with
        | Ret s' => I s' /\ (mu s' < mu s)%nat
        | Raise _ => True
        | OutOfFuel => False
        end) ->
  forall fuel s,
    I s -> (mu s <= fuel)%nat ->
    while cond body fuel s <> OutOfFuel
    /\ (iterations cond body fuel s <= mu s)%nat.
Proof.
  intros Hstep fuel. induction fuel as [|fuel IH]; intros s Hs Hmu; simpl.
  - destruct (cond s) eqn:Hc; [|split; [discriminate|lia]].
    destruct (Hstep s Hs Hc) as [Hpos _]. exfalso. lia.
  - destruct (cond s) eqn:Hc; [|split; [discriminate|lia]].
    destruct (Hstep s Hs Hc) as [Hpos Hb].
    destruct (body s) as [s'| |]; simpl.
    + destruct Hb as [Hs' Hlt].
      destruct (IH s' Hs') as [H1 H2]; [lia|]. split; [exact H1|lia].
    + split; [discriminate|lia].
    + contradiction.
Qed.

(** More fuel, and a body that agrees wherever the first one does not run
    out of fuel, give the same outcome. *)
Lemma while_mono (body' : St -> outcome St) :
  (forall s, body s <> OutOfFuel -> body' s = body s) ->
  forall fuel fuel' s,
    (fuel <= fuel')%nat ->
    while cond body fuel s <> OutOfFuel ->
    while cond body' fuel' s = while cond body fuel s.
Proof.
  intros Hb fuel. induction fuel as [|fuel IH]; intros fuel' s Hle; simpl.
  - destruct (cond s) eqn:Hc; [congruence|].
    intros _. destruct fuel'; simpl; rewrite Hc; reflexivity.
  - destruct (cond s) eqn:Hc.
    + destruct fuel' as [|fuel']; [lia|]. simpl. rewrite Hc.
      destruct (body s) as [s1| |] eqn:Hbs; simpl.
      * intros Hw. rewrite Hb, Hbs by congruence. simpl.
        apply IH; [lia|exact Hw].
      * intros _. rewrite Hb, Hbs by congruence. reflexivity.
      * congruence.
    + intros _. destruct fuel'; simpl; rewrite Hc; reflexivity.
Qed.
End WhileFacts.

(** ** Facts about sequences *)

Lemma geb_true (a b : Z) : b <= a -> (a >=? b) = true.
Proof. intros H. rewrite Z.geb_leb. apply Z.leb_le. exact H. Qed.

Lemma geb_false (a b : Z) : a < b -> (a >=? b) = false.
Proof. intros H. rewrite Z.geb_leb. apply Z.leb_gt. exact H. Qed.

Lemma len_nonneg {A : Type} (l : list A) : 0 <= len l.
Proof. unfold len. lia. Qed.

Lemma getitem_in_range {A : Type} (l : list A) (i : Z) :
  0 <= i < len l ->
  exists x, getitem l i = Ret x /\ nth_error l (Z.to_nat i) = Some x.
Proof.
  intros Hi. unfold getitem.
  destruct (i <? 0) eqn:Hneg; [lia|]. rewrite Hneg.
  destruct (nth_error l (Z.to_nat i)) as [x|] eqn:Hn.
  - exists x. auto.
  - apply nth_error_None in Hn. unfold len in Hi. lia.
Qed.

Lemma getitem_fuel {A : Type} (l : list A) (i : Z) : getitem l i <> OutOfFuel.
Proof.
  unfold getitem. destruct ((if i <? 0 then i + len l else i) <? 0); [discriminate|].
  destruct (nth_error l _); discriminate.
Qed.

Lemma getitem_head {A : Type} (x : A) (l : list A) : getitem (x :: l) 0 = Ret x.
Proof. reflexivity. Qed.

Lemma slice_from_len {A : Type} (l : list A) (i : Z) :
  0 <= i <= len l -> len (slice_from l i) = len l - i.
Proof.
  intros Hi. unfold slice_from.
  destruct (i <? 0) eqn:Hneg; [lia|].
  unfold len in *. rewrite length_skipn. lia.
Qed.

(** ** Facts about the regular expression and [int] *)

Lemma take_digits_all_digits (s : string) : all_digits (fst (take_digits s)) = true.
Proof.
  induction s as [|c r IH]; simpl; [reflexivity|].
  destruct (is_digit c) eqn:Hc; [|reflexivity].
  destruct (take_digits r) as [d rest]. simpl in *. rewrite Hc, IH. reflexivity.
Qed.

Lemma digit_value_range (c : ascii) : is_digit c = true -> 0 <= digit_value c <= 9.
Proof.
  unfold is_digit, digit_value. intros H.
  apply andb_true_iff in H. destruct H as [H1 H2].
  apply Nat.leb_le in H1. apply Nat.leb_le in H2. lia.
Qed.

Lemma py_int_acc_nonneg (s : string) :
  all_digits s = true -> forall acc, 0 <= acc -> 0 <= py_int_acc s acc.
Proof.
  induction s as [|c r IH]; cbn [py_int_acc all_digits]; intros Hd acc Hacc;
    [exact Hacc|].
  apply andb_true_iff in Hd. destruct Hd as [Hc Hr].
  apply IH; [exact Hr|]. pose proof (digit_value_range c Hc). lia.
Qed.

Lemma digits_value_nonneg (s : string) : all_digits s = true -> 0 <= digits_value s.
Proof. intros H. apply py_int_acc_nonneg; [exact H|lia]. Qed.

Lemma variant_expression_match_digits (piece : string) (mo : match_object) :
  variant_expression_match piece = Some mo ->
  all_digits (group_min mo) = true /\ all_digits (group_max mo) = true.
Proof.
  unfold variant_expression_match, option_bind.
  destruct (expect "{" (skip_spaces piece)) as [s1|]; [|discriminate].
  pose proof (take_digits_all_digits (skip_spaces s1)) as H1.
  destruct (take_digits (skip_spaces s1)) as [mn s2].
  destruct (expect "," (skip_spaces s2)) as [s3|]; [|discriminate].
  pose proof (take_digits_all_digits (skip_spaces s3)) as H2.
  destruct (take_digits (skip_spaces s3)) as [mx s4].
  destruct (expect "}" (skip_spaces s4)); [|discriminate].
  intros [= <-]. auto.
Qed.

(** The range form written without whitespace is recognised, with its two
    groups of digits. *)
Lemma take_digits_app (d rest : string) :
  all_digits d = true ->
  match rest with
  | EmptyString => True
  | String c _ => is_digit c = false
  end ->
  take_digits (d ++ rest) = (d, rest).
Proof.
  intros Hd Hrest. induction d as [|c r IH]; simpl in *.
  - destruct rest as [|c r]; [reflexivity|]. simpl. rewrite Hrest. reflexivity.
  - apply andb_true_iff in Hd. destruct Hd as [Hc Hr].
    rewrite Hc, (IH Hr). reflexivity.
Qed.

Lemma skip_spaces_digits (d rest : string) :
  all_digits d = true ->
  match rest with
  | EmptyString => True
  | String c _ => is_space c = false
  end ->
  skip_spaces (d ++ rest) = d ++ rest.
Proof.
  intros Hd Hrest. destruct d as [|c r]; simpl in *.
  - destruct rest as [|c r]; [reflexivity|]. simpl. rewrite Hrest. reflexivity.
  - apply andb_true_iff in Hd. destruct Hd as [Hc _].
    assert (Hs : is_space c = false).
    { unfold is_digit, is_space in *.
      apply andb_true_iff in Hc. destruct Hc as [H1 H2].
      apply Nat.leb_le in H1. apply Nat.leb_le in H2.
      clear Hrest.
      replace (nat_of_ascii c <=? 13)%nat with false
        by (symmetry; apply Nat.leb_gt; lia).
      replace (nat_of_ascii c <=? 32)%nat with false
        by (symmetry; apply Nat.leb_gt; lia).
      replace (nat_of_ascii c =? 133)%nat with false
        by (symmetry; apply Nat.eqb_neq; lia).
      replace (nat_of_ascii c =? 160)%nat with false
        by (symmetry; apply Nat.eqb_neq; lia).
      rewrite !andb_false_r. reflexivity. }
    rewrite Hs. reflexivity.
Qed.

Lemma expect_head (c : ascii) (r : string) : expect c (String c r) = Some r.
Proof. unfold expect. rewrite Ascii.eqb_refl. reflexivity. Qed.

Lemma skip_spaces_head (c : ascii) (r : string) :
  is_space c = false -> skip_spaces (String c r) = String c r.
Proof. intros H. cbn [skip_spaces]. rewrite H. reflexivity. Qed.

Lemma variant_expression_match_plain (dmin dmax : string) :
  all_digits dmin = true -> all_digits dmax = true ->
  variant_expression_match ("{" ++ dmin ++ "," ++ dmax ++ "}")
  = Some (MatchObject dmin dmax).
Proof.
  intros Hmin Hmax. unfold variant_expression_match.
  change ("{" ++ dmin ++ "," ++ dmax ++ "}")
    with (String "{" (dmin ++ String "," (dmax ++ "}"))).
  rewrite skip_spaces_head by reflexivity.
  rewrite expect_head. cbn [option_bind].
  rewrite (skip_spaces_digits dmin) by (auto; reflexivity).
  rewrite (take_digits_app dmin) by (auto; reflexivity).
  rewrite skip_spaces_head by reflexivity.
  rewrite expect_head. cbn [option_bind].
  rewrite (skip_spaces_digits dmax) by (auto; reflexivity).
  rewrite (take_digits_app dmax) by (auto; reflexivity).
  rewrite skip_spaces_head by reflexivity.
  rewrite expect_head. reflexivity.
Qed.

(** [int(str(n)) == n], and [str(n)] is a non-empty string of digits. *)
Lemma string_of_uint_digits (d : Decimal.uint) :
  all_digits (NilEmpty.string_of_uint d) = true.
Proof. induction d; simpl; auto. Qed.

Lemma str_digits (n : N) : all_digits (str n) = true.
Proof.
  unfold str, NilZero.string_of_uint.
  destruct (N.to_uint n); try reflexivity; apply string_of_uint_digits.
Qed.

Lemma str_truthy (n : N) : truthy (str n) = true.
Proof. unfold str. destruct (N.to_uint n); reflexivity. Qed.

Lemma py_int_acc_of_uint_acc (d : Decimal.uint) (acc : positive) :
  py_int_acc (NilEmpty.string_of_uint d) (Z.pos acc)
  = Z.pos (Pos.of_uint_acc d acc).
Proof.
  revert acc.
  induction d; intros acc;
    cbn [NilEmpty.string_of_uint py_int_acc Pos.of_uint_acc];
    [reflexivity| ..];
    rewrite <- IHd; f_equal;
    match goal with
    | |- context [digit_value ?c] =>
        let v := eval vm_compute in (digit_value c) in
        change (digit_value c) with v
    end; lia.
Qed.

Lemma digits_value_of_uint (d : Decimal.uint) :
  digits_value (NilEmpty.string_of_uint d) = Z.of_N (Pos.of_uint d).
Proof.
  unfold digits_value.
  induction d; cbn [NilEmpty.string_of_uint py_int_acc Pos.of_uint];
    [reflexivity|exact IHd| ..];
    match goal with
    | |- context [digit_value ?c] =>
        let v := eval vm_compute in (digit_value c) in
        change (10 * 0 + digit_value c) with v
    end; apply py_int_acc_of_uint_acc.
Qed.

Lemma digits_value_str (n : N) : digits_value (str n) = Z.of_N n.
Proof.
  unfold str. rewrite <- (DecimalN.Unsigned.of_to n) at 2.
  unfold N.of_uint.
  destruct (N.to_uint n) as [|d|d|d|d|d|d|d|d|d|d] eqn:E;
    try (unfold NilZero.string_of_uint; apply digits_value_of_uint).
  reflexivity.
Qed.

(** [str(n)] has no leading zero. *)
Lemma str_normal (n : N) :
  str n = "0"
  \/ exists c r, str n = String c r /\ 1 <= digit_value c.
Proof.
  unfold str.
  assert (Hnorm : N.to_uint n = Decimal.unorm (N.to_uint n)).
  { rewrite <- (DecimalN.Unsigned.to_of (N.to_uint n)).
    rewrite DecimalN.Unsigned.of_to. reflexivity. }
  rewrite Hnorm. unfold Decimal.unorm.
  pose proof (nzhead_nonzero (N.to_uint n)) as Hnz.
  destruct (Decimal.nzhead (N.to_uint n)) as [|d|d|d|d|d|d|d|d|d|d];
    [left; reflexivity|exfalso; eapply Hnz; reflexivity| ..];
    right; eexists _, _; (split; [reflexivity|]); vm_compute; discriminate.
Qed.

Lemma py_int_acc_upper (s : string) :
  all_digits s = true ->
  forall acc, 0 <= acc ->
    py_int_acc s acc < (acc + 1) * 10 ^ Z.of_nat (String.length s).
Proof.
  induction s as [|c r IH]; cbn [py_int_acc all_digits String.length];
    intros Hd acc Hacc.
  - rewrite Z.pow_0_r. lia.
  - apply andb_true_iff in Hd. destruct Hd as [Hc Hr].
    pose proof (digit_value_range c Hc) as Hv.
    specialize (IH Hr (10 * acc + digit_value c) ltac:(lia)).
    rewrite Nat2Z.inj_succ, Z.pow_succ_r by lia.
    assert (Hp : 0 < 10 ^ Z.of_nat (String.length r)) by (apply Z.pow_pos_nonneg; lia).
    nia.
Qed.

Lemma py_int_acc_lower (s : string) :
  all_digits s = true ->
  forall acc, 0 <= acc ->
    acc * 10 ^ Z.of_nat (String.length s) <= py_int_acc s acc.
Proof.
  induction s as [|c r IH]; cbn [py_int_acc all_digits String.length];
    intros Hd acc Hacc.
  - rewrite Z.pow_0_r. lia.
  - apply andb_true_iff in Hd. destruct Hd as [Hc Hr].
    pose proof (digit_value_range c Hc) as Hv.
    specialize (IH Hr (10 * acc + digit_value c) ltac:(lia)).
    rewrite Nat2Z.inj_succ, Z.pow_succ_r by lia.
    assert (Hp : 0 < 10 ^ Z.of_nat (String.length r)) by (apply Z.pow_pos_nonneg; lia).
    nia.
Qed.

(** [str(n)] has at most [k] digits exactly when [n] is below the [k]-th
    power of ten. *)
Lemma str_length (n : N) (k : nat) :
  (1 <= k)%nat ->
  (String.length (str n) <=? k)%nat = (n <? 10 ^ N.of_nat k)%N.
Proof.
  intros Hk.
  pose proof (str_digits n) as Hd. pose proof (digits_value_str n) as Hv.
  unfold digits_value in Hv.
  assert (Hpow : Z.of_N (10 ^ N.of_nat k) = 10 ^ Z.of_nat k).
  { rewrite N2Z.inj_pow, nat_N_Z. reflexivity. }
  destruct (Nat.leb_spec (String.length (str n)) k) as [Hle|Hgt];
    symmetry; [apply N.ltb_lt|apply N.ltb_ge]; apply N2Z.inj_lt || apply N2Z.inj_le;
    rewrite Hpow, <- Hv.
  - pose proof (py_int_acc_upper (str n) Hd 0 ltac:(lia)) as Hup.
    assert (10 ^ Z.of_nat (String.length (str n)) <= 10 ^ Z.of_nat k)
      by (apply Z.pow_le_mono_r; lia).
    lia.
  - destruct (str_normal n) as [H0|(c & r & Hs & Hc)].
    + rewrite H0 in Hgt. cbn [String.length] in Hgt. lia.
    + rewrite Hs in *. cbn [py_int_acc all_digits String.length] in *.
      apply andb_true_iff in Hd. destruct Hd as [Hcd Hr].
      pose proof (digit_value_range c Hcd) as Hrange.
      pose proof (py_int_acc_lower r Hr (10 * 0 + digit_value c) ltac:(lia)) as Hlow.
      assert (10 ^ Z.of_nat k <= 10 ^ Z.of_nat (String.length r))
        by (apply Z.pow_le_mono_r; lia).
      assert (Hp : 0 < 10 ^ Z.of_nat (String.length r))
        by (apply Z.pow_pos_nonneg; lia).
      nia.
Qed.

Lemma str_fit (n : N) : digits_fit (str n) = (n <? int_limit)%N.
Proof.
  unfold digits_fit, int_limit. apply str_length.
  unfold int_max_str_digits. apply Nat.lt_0_succ.
Qed.

(** [int(str(n)) == n] below the limit, [ValueError] from it on. *)
Lemma py_int_str (n : N) :
  py_int (str n) = if (n <? int_limit)%N then Ret (Z.of_N n) else Raise ValueError.
Proof.
  unfold py_int. rewrite str_fit, digits_value_str. reflexivity.
Qed.

(** The three ways [_get_variant_lengths] ends: a group of too many digits
    and a maximum below the minimum raise [ValueError]; otherwise the bounds
    are the numbers of the groups, [0] and [None] for an empty group. *)
Lemma get_variant_lengths_cases (mo : match_object) :
  _get_variant_lengths mo
  = if negb (digits_fit (group_min mo) && digits_fit (group_max mo))
    then Raise ValueError
    else
      let minimum :=
        if truthy (group_min mo) then digits_value (group_min mo) else 0 in
      if truthy (group_max mo) then
        if digits_value (group_max mo) <? minimum then Raise ValueError
        else Ret (minimum, Some (digits_value (group_max mo)))
      else Ret (minimum, None).
Proof.
  unfold _get_variant_lengths, py_int.
  assert (Hempty : forall s, truthy s = false -> digits_fit s = true).
  { intros [|c r]; [reflexivity|discriminate]. }
  destruct (truthy (group_min mo)) eqn:Htmin.
  - destruct (digits_fit (group_min mo)); cbn [bind andb negb]; [|reflexivity].
    destruct (truthy (group_max mo)) eqn:Htmax.
    + destruct (digits_fit (group_max mo)); cbn [bind andb negb]; reflexivity.
    + rewrite (Hempty _ Htmax). reflexivity.
  - rewrite (Hempty _ Htmin). cbn [bind andb negb].
    destruct (truthy (group_max mo)) eqn:Htmax.
    + destruct (digits_fit (group_max mo)); cbn [bind andb negb]; reflexivity.
    + rewrite (Hempty _ Htmax). reflexivity.
Qed.

(** ** Facts about the bounds of variant symbols *)

Lemma get_variant_lengths_ok (mo : match_object) (b : bounds) :
  all_digits (group_min mo) = true -> all_digits (group_max mo) = true ->
  _get_variant_lengths mo = Ret b -> bounds_ok b.
Proof.
  intros Hmin Hmax. rewrite get_variant_lengths_cases.
  destruct (negb _); [discriminate|]. cbv zeta.
  assert (H0 : 0 <= (if truthy (group_min mo) then digits_value (group_min mo) else 0)).
  { destruct (truthy (group_min mo)); [apply digits_value_nonneg; exact Hmin|lia]. }
  destruct (truthy (group_max mo)).
  - destruct (digits_value (group_max mo) <? _) eqn:Hlt; [discriminate|].
    intros [= <-]. split; simpl; [exact H0|].
    intros x [= <-]. lia.
  - intros [= <-]. split; simpl; [exact H0|discriminate].
Qed.

Lemma rules_ok (key : string) (b : bounds) :
  dict_getitem variant_rewrite_rules key = Ret b -> bounds_ok b.
Proof.
  unfold dict_getitem, variant_rewrite_rules. cbn [dict_get].
  destruct (key =? "*")%string; [intros [= <-]; split; simpl; [lia|discriminate]|].
  destruct (key =? "?")%string;
    [intros [= <-]; split; simpl; [lia|intros x [= <-]; lia]|].
  destruct (key =? "+")%string; [intros [= <-]; split; simpl; [lia|discriminate]|].
  discriminate.
Qed.

Lemma variant_lengths_ok (key piece : string) (b : bounds) :
  variant_lengths key (variant_expression_match piece) = Ret b -> bounds_ok b.
Proof.
  unfold variant_lengths.
  destruct (variant_expression_match piece) as [mo|] eqn:Hmo.
  - destruct (variant_expression_match_digits _ _ Hmo).
    apply get_variant_lengths_ok; assumption.
  - apply rules_ok.
Qed.

Lemma sum_step_ok (a b : bounds) : bounds_ok a -> bounds_ok b -> bounds_ok (sum_step a b).
Proof.
  destruct a as [amin amax], b as [bmin bmax]. unfold bounds_ok. simpl.
  intros [Ha1 Ha2] [Hb1 Hb2]. split; [lia|].
  destruct bmax as [bm|], amax as [am|]; intros x; try discriminate.
  - intros [= <-]. specialize (Ha2 am eq_refl). specialize (Hb2 bm eq_refl). lia.
  - intros [= <-]. apply Hb2. reflexivity.
  - intros [= <-]. apply Ha2. reflexivity.
Qed.

(** ** Facts about the loops of [match] *)

Lemma variant_lengths_outcome (key : string) (mo : option match_object) :
  match variant_lengths key mo with
  | Ret _ => True
  | Raise e => pattern_error e
  | OutOfFuel => False
  end.
Proof.
  unfold variant_lengths, pattern_error. destruct mo as [mo|].
  - rewrite get_variant_lengths_cases.
    destruct (negb _); [auto|]. cbv zeta.
    destruct (truthy (group_max mo)); [|exact I].
    destruct (digits_value (group_max mo) <? _); auto.
  - unfold dict_getitem. destruct (dict_get variant_rewrite_rules key); auto.
Qed.

(** The scan for the piece after an unbounded sequence: it stops after the
    first token from [ti] on that equals [lit], or at the end of the
    target. *)
Lemma scan_loop_spec (target : list string) (lit : string) (n : nat) :
  forall ti,
    0 <= ti ->
    len target - ti <= Z.of_nat n ->
    (exists j,
        ti <= j < len target
        /\ getitem target j = Ret lit
        /\ (forall k, ti <= k < j -> getitem target k <> Ret lit)
        /\ while (scan_cond target) (scan_body target (Some lit)) n (false, ti)
           = Ret (true, j + 1))
    \/ ((forall k, ti <= k < len target -> getitem target k <> Ret lit)
        /\ while (scan_cond target) (scan_body target (Some lit)) n (false, ti)
           = Ret (false, Z.max ti (len target))).
Proof.
  induction n as [|n IH]; intros ti Hti Hn.
  - right. split; [intros k Hk; lia|].
    rewrite while_exit.
    + f_equal. f_equal. lia.
    + unfold scan_cond. cbn. apply Z.ltb_ge. lia.
  - destruct (ti <? len target) eqn:Hlt.
    + apply Z.ltb_lt in Hlt.
      destruct (getitem_in_range target ti) as (t & Hget & _); [lia|].
      assert (Hstep :
               while (scan_cond target) (scan_body target (Some lit)) (S n) (false, ti)
               = while (scan_cond target) (scan_body target (Some lit)) n
                   (String.eqb t lit, ti + 1)).
      { rewrite while_step by (unfold scan_cond; cbn; apply Z.ltb_lt; exact Hlt).
        unfold scan_body at 1. cbn [fst snd]. rewrite Hget. reflexivity. }
      rewrite Hstep. clear Hstep.
      destruct (String.eqb t lit) eqn:Heq.
      * left. exists ti. apply String.eqb_eq in Heq. subst t.
        split; [lia|]. split; [exact Hget|]. split; [intros k Hk; lia|].
        apply while_exit. reflexivity.
      * apply String.eqb_neq in Heq.
        destruct (IH (ti + 1)) as [(j & Hj & Hgj & Hfirst & Hw)|[Hnone Hw]];
          try lia.
        -- left. exists j.
           split; [lia|]. split; [exact Hgj|]. split; [|exact Hw].
           intros k Hk. destruct (Z.eq_dec k ti) as [->|Hne].
           ++ rewrite Hget. congruence.
           ++ apply Hfirst. lia.
        -- right. split.
           ++ intros k Hk. destruct (Z.eq_dec k ti) as [->|Hne].
              ** rewrite Hget. congruence.
              ** apply Hnone. lia.
           ++ rewrite Hw. f_equal. f_equal. lia.
    + apply Z.ltb_ge in Hlt. right. split; [intros k Hk; lia|].
      rewrite while_exit.
      * f_equal. f_equal. lia.
      * unfold scan_cond. cbn. apply Z.ltb_ge. lia.
Qed.

Section MatchFacts.
Variable fuel : nat.
Variable target : list string.
Variable pattern : list string.

Lemma collapse_body_spec (first : Z) (piece : string) (rs : run_state) :
  0 <= first ->
  collapse_inv pattern first rs ->
  collapse_cond pattern rs = true ->
  match collapse_body pattern piece rs with
  | Ret rs' =>
      collapse_inv pattern first rs' /\ rs_piece_index rs' = rs_piece_index rs + 1
  | Raise e => pattern_error e
  | OutOfFuel => False
  end.
Proof.
  intros Hfirst (Hpi & Hb & Hmo & Hnp) Hcond.
  unfold collapse_cond in Hcond. cbv zeta in Hcond.
  apply andb_true_iff in Hcond. destruct Hcond as [Hlt _].
  apply Z.ltb_lt in Hlt.
  unfold collapse_body. cbv zeta.
  pose proof (variant_lengths_outcome piece (rs_mo rs)) as Hout.
  destruct (variant_lengths piece (rs_mo rs)) as [new| |] eqn:Hnew;
    cbn [bind]; [|exact Hout|exact Hout].
  rewrite Hmo in Hnew. apply variant_lengths_ok in Hnew.
  cbn [_sum_variant_lengths fold_left].
  pose proof (sum_step_ok _ _ Hb Hnew) as Hsum.
  destruct (sum_step (rs_minimum rs, rs_maximum rs) new) as [minimum maximum].
  destruct Hsum as [Hs1 Hs2]. cbv zeta.
  destruct (rs_piece_index rs + 1 <? len pattern) eqn:Hnext.
  - apply Z.ltb_lt in Hnext.
    destruct (getitem_in_range pattern (rs_piece_index rs + 1)) as (np & Hget & _);
      [lia|].
    rewrite Hget. cbn [bind]. unfold collapse_inv. cbn.
    split; [|reflexivity]. repeat split; auto; lia.
  - apply Z.ltb_ge in Hnext. unfold collapse_inv. cbn.
    split; [|reflexivity]. repeat split; auto; lia.
Qed.

Hypothesis fuel_pattern : (List.length pattern <= fuel)%nat.

Lemma collapse_loop_spec (first : Z) (piece : string) (rs : run_state) :
  0 <= first ->
  collapse_inv pattern first rs ->
  match while (collapse_cond pattern) (collapse_body pattern piece) fuel rs with
  | Ret rs' => collapse_inv pattern first rs' /\ collapse_cond pattern rs' = false
  | Raise e => pattern_error e
  | OutOfFuel => False
  end.
Proof.
  intros Hfirst Hinv.
  destruct (while_total (collapse_cond pattern) (collapse_body pattern piece)
              (collapse_inv pattern first)
              (fun rs => Z.to_nat (len pattern - rs_piece_index rs))) with
    (fuel := fuel) (s := rs) as [Hfuel _].
  - intros s Hs Hc. pose proof (collapse_body_spec first piece s Hfirst Hs Hc) as Hb.
    unfold collapse_cond in Hc. cbv zeta in Hc.
    apply andb_true_iff in Hc. destruct Hc as [Hlt _]. apply Z.ltb_lt in Hlt.
    split; [lia|].
    destruct (collapse_body pattern piece s) as [s'| |]; auto.
    destruct Hb as [Hs' Hpi]. split; [exact Hs'|lia].
  - exact Hinv.
  - destruct Hinv as [Hpi _]. unfold len in *. lia.
  - pose proof (while_outcome (collapse_cond pattern) (collapse_body pattern piece)
                  (collapse_inv pattern first) pattern_error) as Hout.
    specialize (Hout) with (fuel := fuel) (s := rs).
    destruct (while _ _ fuel rs) as [rs'| |] eqn:Hw; [| |congruence];
      apply Hout; auto;
      intros s Hs Hc;
      pose proof (collapse_body_spec first piece s Hfirst Hs Hc) as Hspec;
      destruct (collapse_body pattern piece s); auto; apply Hspec.
Qed.

(** The sequence of variant symbols that starts at the piece the main
    loop looks at: it ends at the end of the pattern or before a piece that
    is no variant symbol, which [next_piece] then holds. *)
Lemma collapse_variants_spec (st : state) (piece : string) :
  0 <= piece_index st < len pattern ->
  match collapse_variants fuel pattern st piece (variant_expression_match piece) with
  | Ret r =>
      piece_index st < run_piece_index r <= len pattern
      /\ bounds_ok (run_minimum r, run_maximum r)
      /\ (run_piece_index r < len pattern ->
          exists lit,
            run_next_piece r = Some lit
            /\ getitem pattern (run_piece_index r) = Ret lit
            /\ is_variant lit (variant_expression_match lit) = false)
  | Raise e => pattern_error e
  | OutOfFuel => False
  end.
Proof.
  intros Hpi. unfold collapse_variants. cbv zeta.
  pose proof (variant_lengths_outcome piece (variant_expression_match piece)) as Hout.
  destruct (variant_lengths piece (variant_expression_match piece))
    as [[minimum maximum]| |] eqn:Hvl; cbn [bind]; [|exact Hout|exact Hout].
  apply variant_lengths_ok in Hvl. destruct Hvl as [Hv1 Hv2]. cbn in Hv1, Hv2.
  destruct (piece_index st + 1 <? len pattern) eqn:Hnext.
  - apply Z.ltb_lt in Hnext.
    destruct (getitem_in_range pattern (piece_index st + 1)) as (np & Hget & _);
      [lia|].
    rewrite Hget. cbn [bind].
    pose proof (collapse_loop_spec (piece_index st) piece
                  (RunState (piece_index st + 1) np
                     (variant_expression_match np) minimum maximum)) as Hloop.
    assert (Hinit : collapse_inv pattern (piece_index st)
                      (RunState (piece_index st + 1) np
                         (variant_expression_match np) minimum maximum)).
    { unfold collapse_inv. cbn. repeat split; auto; lia. }
    specialize (Hloop (proj1 Hpi) Hinit).
    destruct (while _ _ fuel _) as [rs'| |]; cbn [bind]; [|exact Hloop|exact Hloop].
    destruct Hloop as [(Hpi' & Hb & Hmo & Hnp) Hexit].
    cbn. destruct Hb as [Hb1 Hb2]. cbn in Hb1, Hb2.
    repeat split; auto; try lia.
    intros Hlt. exists (rs_next_piece rs'). repeat split; auto.
    unfold collapse_cond in Hexit. cbv zeta in Hexit.
    apply andb_false_iff in Hexit. destruct Hexit as [Hexit|Hexit].
    + apply Z.ltb_ge in Hexit. lia.
    + rewrite <- Hmo. exact Hexit.
  - apply Z.ltb_ge in Hnext. cbn. repeat split; auto; lia.
Qed.

Hypothesis fuel_target : (List.length target <= fuel)%nat.

(** The three ways a sequence of variant symbols is consumed. *)
Lemma consume_run_spec (st : state) (r : run) :
  0 <= target_index st < len target ->
  match_possible st = true ->
  piece_index st < run_piece_index r <= len pattern ->
  bounds_ok (run_minimum r, run_maximum r) ->
  (run_piece_index r < len pattern -> exists lit, run_next_piece r = Some lit) ->
  exists st',
    consume_run fuel target pattern st r = Ret st'
    /\ 0 <= target_index st'
    /\ piece_index st < piece_index st' <= len pattern.
Proof.
  intros Hti Hposs Hpi [Hb1 Hb2] Hnext. cbn in Hb1, Hb2.
  unfold consume_run. cbv zeta.
  destruct (run_piece_index r =? len pattern) eqn:Hlast.
  - apply Z.eqb_eq in Hlast.
    destruct (_ && _).
    + destruct (run_maximum r) as [mx|] eqn:Hmx.
      * eexists. split; [reflexivity|]. cbn. specialize (Hb2 mx eq_refl). lia.
      * eexists. split; [reflexivity|]. cbn. pose proof (len_nonneg target). lia.
    + eexists. split; [reflexivity|]. cbn. lia.
  - apply Z.eqb_neq in Hlast.
    destruct (run_maximum r) as [mx|] eqn:Hmx.
    + eexists. split; [reflexivity|]. cbn. specialize (Hb2 mx eq_refl). lia.
    + destruct Hnext as [lit Hlit]; [lia|]. rewrite Hlit.
      destruct (scan_loop_spec target lit fuel (target_index st + run_minimum r))
        as [(j & Hj & _ & _ & Hw)|[_ Hw]];
        try (unfold len in *; lia);
        rewrite Hw; cbn [bind]; eexists; (split; [reflexivity|]); cbn; lia.
Qed.

(** One turn of the main loop: it raises only what the pattern causes, it
    keeps both indices from becoming negative, and it advances
    [piece_index] or clears [match_possible]. *)
Lemma loop_body_spec (st : state) :
  0 <= target_index st -> 0 <= piece_index st ->
  loop_cond target pattern st = true ->
  match loop_body fuel target pattern st with
  | Ret st' =>
      0 <= target_index st'
      /\ piece_index st <= piece_index st' <= len pattern
      /\ (piece_index st < piece_index st' \/ match_possible st' = false)
  | Raise e => pattern_error e
  | OutOfFuel => False
  end.
Proof.
  intros Hti Hpi Hcond. unfold loop_cond in Hcond. cbv zeta in Hcond.
  apply andb_true_iff in Hcond. destruct Hcond as [Hcond Htlt].
  apply andb_true_iff in Hcond. destruct Hcond as [Hposs Hplt].
  apply Z.ltb_lt in Htlt. apply Z.ltb_lt in Hplt.
  unfold loop_body.
  destruct (getitem_in_range pattern (piece_index st)) as (piece & Hget & _); [lia|].
  rewrite Hget. cbn [bind]. cbv zeta.
  destruct (is_variant piece (variant_expression_match piece)).
  - pose proof (collapse_variants_spec st piece (conj Hpi Hplt)) as Hrun.
    destruct (collapse_variants fuel pattern st piece _) as [r| |]; cbn [bind];
      [|exact Hrun|exact Hrun].
    destruct Hrun as (Hrpi & Hb & Hlit).
    destruct (consume_run_spec st r) as (st' & Hst' & H1 & H2); auto; try lia.
    { intros Hlt. destruct (Hlit Hlt) as (lit & Hl & _). exists lit. exact Hl. }
    rewrite Hst'. repeat split; try lia.
  - destruct (getitem_in_range target (target_index st)) as (t & Hgt & _); [lia|].
    rewrite Hgt. cbn [bind].
    destruct (String.eqb t piece); cbn; repeat split; try lia; auto.
Qed.

Lemma loop_body_total (st : state) :
  main_inv st ->
  loop_cond target pattern st = true ->
  (0 < main_measure target pattern st)%nat
  /\ match loop_body fuel target pattern st with
     | Ret st' =>
         main_inv st'
         /\ (main_measure target pattern st' < main_measure target pattern st)%nat
     | Raise _ => True
     | OutOfFuel => False
     end.
Proof.
  intros [Hti Hpi] Hcond.
  pose proof (loop_body_spec st Hti Hpi Hcond) as Hspec.
  unfold main_measure. rewrite Hcond.
  assert (Hplt : piece_index st < len pattern).
  { unfold loop_cond in Hcond. cbv zeta in Hcond.
    apply andb_true_iff in Hcond. destruct Hcond as [Hcond _].
    apply andb_true_iff in Hcond. destruct Hcond as [_ Hplt].
    apply Z.ltb_lt in Hplt. exact Hplt. }
  split; [lia|].
  destruct (loop_body fuel target pattern st) as [st'| |]; auto.
  destruct Hspec as (Hti' & Hpi' & Hprog).
  split; [split; lia|].
  destruct (loop_cond target pattern st') eqn:Hcond'; [|lia].
  destruct Hprog as [Hprog|Hprog]; [lia|].
  unfold loop_cond in Hcond'. rewrite Hprog in Hcond'. discriminate.
Qed.

(** The main loop ends, after no more turns than the pattern has pieces,
    and [match] returns a truth value or raises what the pattern causes. *)
Lemma match_fuel_outcome :
  match match_fuel fuel target pattern with
  | Ret _ => True
  | Raise e => pattern_error e
  | OutOfFuel => False
  end
  /\ (main_loop_turns fuel target pattern <= List.length pattern)%nat.
Proof.
  assert (Hinit : main_inv initial) by (split; cbn; lia).
  destruct (while_total (loop_cond target pattern) (loop_body fuel target pattern)
              main_inv (main_measure target pattern) loop_body_total fuel initial Hinit)
    as [Hfuel Hturns].
  { unfold main_measure. destruct (loop_cond target pattern initial); [|lia].
    cbn. unfold len. lia. }
  split.
  - unfold match_fuel.
    pose proof (while_outcome (loop_cond target pattern)
                  (loop_body fuel target pattern) main_inv pattern_error) as Hout.
    specialize (Hout) with (fuel := fuel) (s := initial).
    destruct (while _ _ fuel initial) as [st| |]; cbn [bind];
      [exact I| |congruence].
    apply Hout; [|exact Hinit].
    intros s [Hti Hpi] Hc. pose proof (loop_body_spec s Hti Hpi Hc) as Hspec.
    destruct (loop_body fuel target pattern s); auto.
    split; lia.
  - unfold main_loop_turns. etransitivity; [exact Hturns|].
    unfold main_measure. destruct (loop_cond target pattern initial); [|lia].
    cbn. unfold len. lia.
Qed.
End MatchFacts.

(** ** The fuel does not matter once it is enough *)

Lemma bind_fuel {A B : Type} (m : outcome A) (k : A -> outcome B) :
  (x <- m ;; k x) <> OutOfFuel -> m <> OutOfFuel.
Proof. destruct m; cbn; congruence. Qed.

Lemma collapse_variants_mono (fuel fuel' : nat) (pattern : list string)
    (st : state) (piece : string) (mo : option match_object) :
  (fuel <= fuel')%nat ->
  collapse_variants fuel pattern st piece mo <> OutOfFuel ->
  collapse_variants fuel' pattern st piece mo
  = collapse_variants fuel pattern st piece mo.
Proof.
  intros Hle. unfold collapse_variants. cbv zeta.
  destruct (variant_lengths piece mo) as [[minimum maximum]| |]; cbn [bind]; auto.
  destruct (piece_index st + 1 <? len pattern); auto.
  destruct (getitem pattern (piece_index st + 1)) as [np| |]; cbn [bind]; auto.
  intros H. apply bind_fuel in H.
  rewrite (while_mono (collapse_cond pattern) (collapse_body pattern piece)
             (collapse_body pattern piece)) with (fuel := fuel); auto.
Qed.

Lemma consume_run_mono (fuel fuel' : nat) (target pattern : list string)
    (st : state) (r : run) :
  (fuel <= fuel')%nat ->
  consume_run fuel target pattern st r <> OutOfFuel ->
  consume_run fuel' target pattern st r = consume_run fuel target pattern st r.
Proof.
  intros Hle. unfold consume_run. cbv zeta.
  destruct (run_piece_index r =? len pattern); auto.
  destruct (run_maximum r); auto.
  intros H. apply bind_fuel in H.
  rewrite (while_mono (scan_cond target) (scan_body target (run_next_piece r))
             (scan_body target (run_next_piece r))) with (fuel := fuel); auto.
Qed.

Lemma loop_body_mono (fuel fuel' : nat) (target pattern : list string) (st : state) :
  (fuel <= fuel')%nat ->
  loop_body fuel target pattern st <> OutOfFuel ->
  loop_body fuel' target pattern st = loop_body fuel target pattern st.
Proof.
  intros Hle. unfold loop_body.
  destruct (getitem pattern (piece_index st)) as [piece| |]; cbn [bind]; auto.
  cbv zeta. destruct (is_variant piece (variant_expression_match piece)); auto.
  intros H. pose proof (bind_fuel _ _ H) as Hc.
  rewrite (collapse_variants_mono fuel fuel') by assumption.
  destruct (collapse_variants fuel pattern st piece _) as [r| |]; cbn [bind] in *; auto.
  apply consume_run_mono; assumption.
Qed.

Lemma match_fuel_mono (fuel fuel' : nat) (target pattern : list string) :
  (fuel <= fuel')%nat ->
  match_fuel fuel target pattern <> OutOfFuel ->
  match_fuel fuel' target pattern = match_fuel fuel target pattern.
Proof.
  intros Hle H. unfold match_fuel in *. apply bind_fuel in H.
  rewrite (while_mono (loop_cond target pattern) (loop_body fuel target pattern)
             (loop_body fuel' target pattern)) with (fuel := fuel); auto.
  intros s Hs. apply loop_body_mono; assumption.
Qed.

(** [match] returns a truth value or raises [ValueError] or [KeyError]; the
    model never runs out of the fuel it gives itself. *)
Lemma match_outcome (target pattern : list string) :
  match match_ target pattern with
  | Ret _ => True
  | Raise e => pattern_error e
  | OutOfFuel => False
  end.
Proof. apply match_fuel_outcome; lia. Qed.

(** Any larger amount of fuel gives the outcome of [match_]. *)
Lemma match_fuel_enough (fuel : nat) (target pattern : list string) :
  (List.length target + List.length pattern <= fuel)%nat ->
  match_fuel fuel target pattern = match_ target pattern.
Proof.
  intros Hle. apply match_fuel_mono; [exact Hle|].
  pose proof (match_outcome target pattern) as H. unfold match_ in H.
  destruct (match_fuel _ target pattern); [discriminate|discriminate|contradiction].
Qed.

(** ** Patterns of one variant symbol *)

Lemma loop_cond_initial (target pattern : list string) :
  (0 < List.length target)%nat -> (0 < List.length pattern)%nat ->
  loop_cond target pattern initial = true.
Proof.
  intros Ht Hp. unfold loop_cond, initial. cbn.
  apply andb_true_iff. split; apply Z.ltb_lt; unfold len; lia.
Qed.

(** A pattern of one variant symbol with the bounds [(mn, mx)], against a
    target that is not empty: the target must have [mn] tokens at least, and
    exactly [mx] tokens when there is a maximum. *)
Lemma match_single_variant (target : list string) (piece : string)
    (mn : Z) (mx : option Z) :
  (0 < List.length target)%nat ->
  is_literal piece = false ->
  variant_lengths piece (variant_expression_match piece) = Ret (mn, mx) ->
  match_ target [piece]
  = Ret ((len target >=? mn)
         && match mx with
            | None => true
            | Some x => (x <=? len target) && (x >=? len target)
            end).
Proof.
  intros Ht Hvar Hvl. unfold is_literal in Hvar. apply negb_false_iff in Hvar.
  unfold match_, match_fuel.
  replace (List.length target + List.length [piece])%nat
    with (S (List.length target)) by (simpl; lia).
  rewrite while_step by (apply loop_cond_initial; simpl; lia).
  assert (Hbody :
    loop_body (S (List.length target)) target [piece] initial
    = Ret (if (len target >=? mn)
              && match mx with None => true | Some x => x <=? len target end
           then State (match mx with None => len target | Some x => x end) 1 true
           else State 0 1 false)).
  { unfold loop_body, initial. cbn [piece_index]. rewrite getitem_head. cbn [bind].
    cbv zeta. rewrite Hvar.
    unfold collapse_variants. rewrite Hvl. cbn [bind piece_index].
    change (0 + 1 <? len [piece]) with false. cbv iota. cbn [bind].
    unfold consume_run. cbn [run_piece_index run_minimum run_maximum].
    change (0 + 1 =? len [piece]) with true. cbv iota zeta.
    cbn [target_index match_possible].
    rewrite slice_from_len by (pose proof (len_nonneg target); lia).
    rewrite Z.sub_0_r.
    destruct (len target >=? mn); cbn [andb]; [|reflexivity].
    destruct mx as [x|]; [|reflexivity].
    destruct (x <=? len target); reflexivity. }
  rewrite Hbody. cbn [bind].
  assert (Hlen : 0 < len target) by (unfold len; lia).
  destruct (len target >=? mn); cbn [andb].
  - destruct mx as [x|].
    + destruct (x <=? len target) eqn:Hle; cbn [andb].
      * rewrite while_exit by reflexivity. cbn [bind].
        unfold result_of. cbn [target_index piece_index].
        change (1 >=? len [piece]) with true. rewrite andb_true_r. reflexivity.
      * rewrite while_exit by reflexivity. cbn [bind].
        unfold result_of. cbn [target_index piece_index].
        rewrite geb_false by lia. reflexivity.
    + rewrite while_exit by reflexivity. cbn [bind].
      unfold result_of. cbn [target_index piece_index].
      change (1 >=? len [piece]) with true. rewrite andb_true_r.
      rewrite geb_true by lia. reflexivity.
  - rewrite while_exit by reflexivity. cbn [bind].
    unfold result_of. cbn [target_index piece_index].
    rewrite geb_false by lia. reflexivity.
Qed.

(** A pattern of one variant symbol whose bounds are not obtained: the
    exception reaches the caller when the target is not empty. *)
Lemma match_single_raise (target : list string) (piece : string) (e : exception) :
  (0 < List.length target)%nat ->
  is_literal piece = false ->
  variant_lengths piece (variant_expression_match piece) = Raise e ->
  match_ target [piece] = Raise e.
Proof.
  intros Ht Hvar Hvl. unfold is_literal in Hvar. apply negb_false_iff in Hvar.
  unfold match_, match_fuel.
  replace (List.length target + List.length [piece])%nat
    with (S (List.length target)) by (simpl; lia).
  rewrite while_step by (apply loop_cond_initial; simpl; lia).
  unfold loop_body at 1, initial. cbn [piece_index]. rewrite getitem_head.
  cbn [bind]. cbv zeta. rewrite Hvar.
  unfold collapse_variants. rewrite Hvl. reflexivity.
Qed.

Lemma range_piece_match (m n : N) :
  variant_expression_match (range_piece m n) = Some (MatchObject (str m) (str n)).
Proof. apply variant_expression_match_plain; apply str_digits. Qed.

Lemma open_range_piece_match (m : N) :
  variant_expression_match (open_range_piece m) = Some (MatchObject (str m) EmptyString).
Proof.
  change (open_range_piece m) with ("{" ++ str m ++ "," ++ EmptyString ++ "}").
  apply variant_expression_match_plain; [apply str_digits|reflexivity].
Qed.

Lemma range_piece_lengths (m n : N) :
  (m <= n)%N ->
  variant_lengths (range_piece m n) (variant_expression_match (range_piece m n))
  = if (n <? int_limit)%N then Ret (Z.of_N m, Some (Z.of_N n))
    else Raise ValueError.
Proof.
  intros Hmn. rewrite range_piece_match.
  unfold variant_lengths. rewrite get_variant_lengths_cases.
  cbn [group_min group_max]. rewrite !str_fit, !str_truthy, !digits_value_str.
  destruct (N.ltb_spec n int_limit) as [Hn|Hn].
  - replace (m <? int_limit)%N with true by (symmetry; apply N.ltb_lt; lia).
    cbn [andb negb]. cbv zeta.
    replace (Z.of_N n <? Z.of_N m) with false by (symmetry; apply Z.ltb_ge; lia).
    reflexivity.
  - rewrite andb_false_r. reflexivity.
Qed.

Lemma open_range_piece_lengths (m : N) :
  variant_lengths (open_range_piece m) (variant_expression_match (open_range_piece m))
  = if (m <? int_limit)%N then Ret (Z.of_N m, None) else Raise ValueError.
Proof.
  rewrite open_range_piece_match.
  unfold variant_lengths. rewrite get_variant_lengths_cases.
  cbn [group_min group_max truthy]. rewrite str_fit, str_truthy, digits_value_str.
  change (digits_fit EmptyString) with true. rewrite andb_true_r.
  destruct (m <? int_limit)%N; reflexivity.
Qed.

Lemma matched_is_variant (piece : string) (mo : match_object) :
  variant_expression_match piece = Some mo -> is_literal piece = false.
Proof.
  intros H. unfold is_literal, is_variant. rewrite H, orb_true_r. reflexivity.
Qed.

(** On a target that is not empty, the pattern [*] matches. *)
Lemma match_star_nonempty (target : list string) :
  (0 < List.length target)%nat -> match_ target ["*"] = Ret true.
Proof.
  intros Ht.
  rewrite (match_single_variant target "*" 0 None Ht); try reflexivity.
  rewrite geb_true by apply len_nonneg. reflexivity.
Qed.

(** On a target that is not empty, the range without maximum matches the
    targets of [m] tokens or more, for [m] below the limit of [int]. *)
Lemma match_open_range_nonempty (target : list string) (m : N) :
  (0 < List.length target)%nat ->
  (m < int_limit)%N ->
  match_ target [open_range_piece m] = Ret (m <=? N.of_nat (List.length target))%N.
Proof.
  intros Ht Hm.
  rewrite (match_single_variant target (open_range_piece m) (Z.of_N m) None Ht).
  - rewrite andb_true_r. f_equal. unfold len.
    destruct (N.leb_spec m (N.of_nat (List.length target))).
    + apply geb_true. lia.
    + apply geb_false. lia.
  - apply (matched_is_variant _ _ (open_range_piece_match m)).
  - rewrite open_range_piece_lengths.
    replace (m <? int_limit)%N with true by (symmetry; apply N.ltb_lt; exact Hm).
    reflexivity.
Qed.

(** On a target that is not empty, the range [{m,m}] matches the targets of
    exactly [m] tokens, for [m] below the limit of [int]. *)
Lemma match_exact_range_nonempty (target : list string) (m : N) :
  (0 < List.length target)%nat ->
  (m < int_limit)%N ->
  match_ target [range_piece m m] = Ret (N.of_nat (List.length target) =? m)%N.
Proof.
  intros Ht Hm.
  rewrite (match_single_variant target (range_piece m m)
             (Z.of_N m) (Some (Z.of_N m)) Ht).
  - f_equal. unfold len.
    destruct (N.eqb_spec (N.of_nat (List.length target)) m) as [<-|Hne].
    + rewrite !geb_true by lia. rewrite nat_N_Z, Z.leb_refl. reflexivity.
    + destruct (Z.leb_spec (Z.of_N m) (Z.of_nat (List.length target))).
      * rewrite (geb_false (Z.of_N m)) by lia. rewrite andb_false_r. reflexivity.
      * rewrite andb_false_r. reflexivity.
  - apply (matched_is_variant _ _ (range_piece_match m m)).
  - rewrite range_piece_lengths by lia.
    replace (m <? int_limit)%N with true by (symmetry; apply N.ltb_lt; exact Hm).
    reflexivity.
Qed.

(** ** Progress of the main loop *)

Lemma collapse_body_index (pattern : list string) (piece : string) (rs rs' : run_state) :
  collapse_body pattern piece rs = Ret rs' ->
  rs_piece_index rs' = rs_piece_index rs + 1.
Proof.
  unfold collapse_body. cbv zeta.
  destruct (variant_lengths piece (rs_mo rs)) as [new| |]; cbn [bind]; try discriminate.
  cbn [_sum_variant_lengths fold_left].
  destruct (sum_step (rs_minimum rs, rs_maximum rs) new) as [minimum maximum].
  destruct (rs_piece_index rs + 1 <? len pattern).
  - destruct (getitem pattern (rs_piece_index rs + 1)); cbn [bind]; try discriminate.
    intros [= <-]. reflexivity.
  - intros [= <-]. reflexivity.
Qed.

Lemma collapse_variants_index (fuel : nat) (pattern : list string) (st : state)
    (piece : string) (mo : option match_object) (r : run) :
  collapse_variants fuel pattern st piece mo = Ret r ->
  piece_index st < run_piece_index r.
Proof.
  unfold collapse_variants. cbv zeta.
  destruct (variant_lengths piece mo) as [[minimum maximum]| |]; cbn [bind];
    try discriminate.
  destruct (piece_index st + 1 <? len pattern).
  - destruct (getitem pattern (piece_index st + 1)) as [np| |]; cbn [bind];
      try discriminate.
    pose proof (while_outcome (collapse_cond pattern) (collapse_body pattern piece)
                  (fun rs => piece_index st < rs_piece_index rs) (fun _ => True))
      as Hout.
    specialize (Hout) with
      (fuel := fuel)
      (s := RunState (piece_index st + 1) np (variant_expression_match np)
              minimum maximum).
    destruct (while _ _ fuel _) as [rs| |]; cbn [bind]; try discriminate.
    intros [= <-]. cbn. apply Hout.
    + intros s Hs _. destruct (collapse_body pattern piece s) as [s'| |] eqn:Hb; auto.
      apply collapse_body_index in Hb. lia.
    + cbn. lia.
  - intros [= <-]. cbn. lia.
Qed.

Lemma consume_run_index (fuel : nat) (target pattern : list string) (st st' : state)
    (r : run) :
  consume_run fuel target pattern st r = Ret st' ->
  run_piece_index r <= piece_index st'.
Proof.
  unfold consume_run. cbv zeta.
  destruct (run_piece_index r =? len pattern).
  - destruct (_ && _).
    + destruct (run_maximum r); intros [= <-]; cbn; lia.
    + intros [= <-]. cbn. lia.
  - destruct (run_maximum r).
    + intros [= <-]. cbn. lia.
    + destruct (while _ _ fuel _) as [[matched ti]| |]; cbn [bind]; try discriminate.
      intros [= <-]. cbn. destruct matched; lia.
Qed.

(** Every turn of the main loop advances [piece_index] or clears
    [match_possible]. *)
Lemma loop_body_progress (fuel : nat) (target pattern : list string) (st st' : state) :
  loop_body fuel target pattern st = Ret st' ->
  piece_index st < piece_index st' \/ match_possible st' = false.
Proof.
  unfold loop_body.
  destruct (getitem pattern (piece_index st)) as [piece| |]; cbn [bind];
    try discriminate.
  cbv zeta. destruct (is_variant piece (variant_expression_match piece)).
  - destruct (collapse_variants fuel pattern st piece _) as [r| |] eqn:Hr;
      cbn [bind]; try discriminate.
    intros Hc. left.
    apply collapse_variants_index in Hr. apply consume_run_index in Hc. lia.
  - destruct (getitem target (target_index st)) as [t| |]; cbn [bind];
      try discriminate.
    destruct (String.eqb t piece); intros [= <-]; cbn; [left; lia|right; reflexivity].
Qed.

(** * The properties of [match] *)

(** C8.  [match] terminates.  With fuel for as many turns as the target and
    the pattern have elements together, no loop of the model runs out of
    fuel and the outcome is that of [match_]; the main loop takes no more
    turns than the combined lengths of target and pattern; and every turn
    of the main loop advances at least one cursor ([target_index] or
    [piece_index]) or clears [match_possible]. *)
Theorem match_terminates (fuel : nat) (target pattern : list string) :
  (List.length target + List.length pattern <= fuel)%nat ->
  match_fuel fuel target pattern <> OutOfFuel
  /\ match_fuel fuel target pattern = match_ target pattern
  /\ (main_loop_turns fuel target pattern
      <= List.length target + List.length pattern)%nat
  /\ (forall st st',
         loop_cond target pattern st = true ->
         loop_body fuel target pattern st = Ret st' ->
         (target_index st < target_index st' \/ piece_index st < piece_index st')
         \/ match_possible st' = false).
Proof.
  intros Hfuel.
  destruct (match_fuel_outcome fuel target pattern) as [Hout Hturns]; try lia.
  split; [|split; [|split]].
  - destruct (match_fuel fuel target pattern); [discriminate|discriminate|contradiction].
  - apply match_fuel_enough. exact Hfuel.
  - lia.
  - intros st st' _ Hbody.
    destruct (loop_body_progress _ _ _ _ _ Hbody) as [H|H]; auto.
Qed.

Lemma match_terminates_witness :
  match_fuel 4 ["Character"; "Action"] ["*"; "Action"] <> OutOfFuel
  /\ match_fuel 4 ["Character"; "Action"] ["*"; "Action"]
     = match_ ["Character"; "Action"] ["*"; "Action"]
  /\ (main_loop_turns 4 ["Character"; "Action"] ["*"; "Action"] <= 2 + 2)%nat
  /\ (forall st st',
         loop_cond ["Character"; "Action"] ["*"; "Action"] st = true ->
         loop_body 4 ["Character"; "Action"] ["*"; "Action"] st = Ret st' ->
         (target_index st < target_index st' \/ piece_index st < piece_index st')
         \/ match_possible st' = false).
Proof.
  apply (match_terminates 4 ["Character"; "Action"] ["*"; "Action"]).
  simpl. lia.
Defined.

(** C9.  With an empty target, [match] returns [True] exactly when the
    pattern is empty, and the main loop takes no turn: no piece of the
    pattern is looked at, no variant symbol is resolved and no range is
    validated. *)
Theorem match_empty_target (pattern : list string) :
  match_ [] pattern = Ret (match pattern with [] => true | _ :: _ => false end)
  /\ forall fuel, main_loop_turns fuel [] pattern = O.
Proof.
  assert (Hcond : loop_cond [] pattern initial = false).
  { unfold loop_cond, initial. cbn. apply andb_false_r. }
  split.
  - unfold match_, match_fuel. rewrite while_exit by exact Hcond. cbn [bind].
    unfold result_of, initial. cbn [target_index piece_index].
    destruct pattern as [|piece rest]; [reflexivity|].
    rewrite (geb_false 0 (len (piece :: rest))) by (unfold len; simpl; lia).
    reflexivity.
  - intros fuel. unfold main_loop_turns. apply iterations_exit. exact Hcond.
Qed.

(** C10.  On a target that is not empty, the pattern of the one piece
    [{m,n}] with [m <= n]: [match] returns whether the target has exactly
    [n] tokens, for every [n] that [int] reads (fewer than 4301 digits), and
    raises the [ValueError] of [int] for the other [n].  So for every target
    whose length [int] can read, as that of every sequence is, [match]
    returns [True] exactly when the target has [n] tokens, and a target
    whose length is strictly between [m] and [n] is not matched. *)
Theorem match_range_nonempty (target : list string) (m n : N) :
  (0 < List.length target)%nat -> (m <= n)%N ->
  match_ target [range_piece m n]
  = (if (n <? int_limit)%N
     then Ret (N.of_nat (List.length target) =? n)%N
     else Raise ValueError)
  /\ ((N.of_nat (List.length target) < int_limit)%N ->
      (match_ target [range_piece m n] = Ret true
       <-> N.of_nat (List.length target) = n)
      /\ ((m < N.of_nat (List.length target) < n)%N ->
          match_ target [range_piece m n] <> Ret true)).
Proof.
  intros Ht Hmn.
  assert (Hout :
    match_ target [range_piece m n]
    = (if (n <? int_limit)%N
       then Ret (N.of_nat (List.length target) =? n)%N
       else Raise ValueError)).
  { pose proof (range_piece_lengths m n Hmn) as Hvl.
    destruct (n <? int_limit)%N.
    - rewrite (match_single_variant target (range_piece m n)
                 (Z.of_N m) (Some (Z.of_N n)) Ht).
      + f_equal. unfold len.
        destruct (N.eqb_spec (N.of_nat (List.length target)) n) as [<-|Hne].
        * rewrite !geb_true by lia. rewrite nat_N_Z, Z.leb_refl. reflexivity.
        * destruct (Z.leb_spec (Z.of_N n) (Z.of_nat (List.length target))).
          -- rewrite (geb_false (Z.of_N n)) by lia. rewrite andb_false_r.
             reflexivity.
          -- rewrite andb_false_r. reflexivity.
      + apply (matched_is_variant _ _ (range_piece_match m n)).
      + exact Hvl.
    - apply match_single_raise; [exact Ht| |exact Hvl].
      apply (matched_is_variant _ _ (range_piece_match m n)). }
  split; [exact Hout|]. intros Hlen. rewrite Hout. split; [split|].
  - destruct (n <? int_limit)%N; [|discriminate].
    intros [= Heq]. apply N.eqb_eq. exact Heq.
  - intros <-.
    replace (N.of_nat (List.length target) <? int_limit)%N with true
      by (symmetry; apply N.ltb_lt; exact Hlen).
    rewrite N.eqb_refl. reflexivity.
  - intros Hbetween. destruct (n <? int_limit)%N; [|discriminate].
    replace (N.of_nat (List.length target) =? n)%N with false
      by (symmetry; apply N.eqb_neq; lia).
    discriminate.
Qed.

Lemma match_range_nonempty_witness :
  match_ ["Character"; "Scope"; "Action"] [range_piece 0 2]
  = (if (2 <? int_limit)%N
     then Ret (N.of_nat (List.length ["Character"; "Scope"; "Action"]) =? 2)%N
     else Raise ValueError)
  /\ ((N.of_nat (List.length ["Character"; "Scope"; "Action"]) < int_limit)%N ->
      (match_ ["Character"; "Scope"; "Action"] [range_piece 0 2] = Ret true
       <-> N.of_nat (List.length ["Character"; "Scope"; "Action"]) = 2%N)
      /\ ((0 < N.of_nat (List.length ["Character"; "Scope"; "Action"]) < 2)%N ->
          match_ ["Character"; "Scope"; "Action"] [range_piece 0 2] <> Ret true)).
Proof.
  apply (match_range_nonempty ["Character"; "Scope"; "Action"] 0 2); simpl; lia.
Defined.



(** ** Literal pieces at the start of a pattern *)

Lemma getitem_app {A : Type} (done : list A) (x : A) (rest : list A) :
  getitem (done ++ x :: rest) (len done) = Ret x.
Proof.
  unfold getitem. pose proof (len_nonneg done) as H0.
  replace (len done <? 0) with false by (symmetry; apply Z.ltb_ge; lia).
  replace (len done <? 0) with false by (symmetry; apply Z.ltb_ge; lia).
  unfold len. rewrite Nat2Z.id, nth_error_app2 by lia.
  rewrite Nat.sub_diag. reflexivity.
Qed.

Lemma len_app_one {A : Type} (done : list A) (x : A) : len (done ++ [x]) = len done + 1.
Proof. unfold len. rewrite List.length_app. simpl. lia. Qed.

Lemma len_app_lt {A : Type} (done : list A) (x : A) (rest : list A) :
  len done < len (done ++ x :: rest).
Proof. unfold len. rewrite List.length_app. simpl. lia. Qed.

(** Literal pieces that equal the tokens at the same places take one turn
    of the main loop each and leave both indices after them. *)
Lemma literal_prefix_loop (fuel : nat) (lits : list string) :
  forallb is_literal lits = true ->
  forall (done trest prest : list string) (t p : string) (n : nat),
    while (loop_cond (done ++ lits ++ t :: trest) (done ++ lits ++ p :: prest))
      (loop_body fuel (done ++ lits ++ t :: trest) (done ++ lits ++ p :: prest))
      (List.length lits + n) (State (len done) (len done) true)
    = while (loop_cond (done ++ lits ++ t :: trest) (done ++ lits ++ p :: prest))
        (loop_body fuel (done ++ lits ++ t :: trest) (done ++ lits ++ p :: prest))
        n (State (len (done ++ lits)) (len (done ++ lits)) true).
Proof.
  induction lits as [|l lits IH]; intros Hlits done trest prest t p n.
  - rewrite List.app_nil_r. reflexivity.
  - cbn [forallb] in Hlits. apply andb_true_iff in Hlits. destruct Hlits as [Hl Hlits].
    unfold is_literal in Hl. apply negb_true_iff in Hl.
    cbn [List.length Nat.add]. cbn [app].
    rewrite while_step.
    2:{ unfold loop_cond. cbn [match_possible piece_index target_index andb].
        apply andb_true_iff. split; apply Z.ltb_lt; apply len_app_lt. }
    unfold loop_body at 1. cbn [piece_index target_index match_possible].
    rewrite !getitem_app. cbn [bind]. cbv zeta. rewrite Hl, String.eqb_refl.
    cbn [bind].
    replace (done ++ l :: lits ++ t :: trest)%list
      with ((done ++ [l]) ++ lits ++ t :: trest)%list
      by (rewrite <- List.app_assoc; reflexivity).
    replace (done ++ l :: lits ++ p :: prest)%list
      with ((done ++ [l]) ++ lits ++ p :: prest)%list
      by (rewrite <- List.app_assoc; reflexivity).
    rewrite <- (len_app_one done l).
    rewrite (IH Hlits (done ++ [l])%list trest prest t p n).
    replace ((done ++ [l]) ++ lits)%list with (done ++ l :: lits)%list
      by (rewrite <- List.app_assoc; reflexivity).
    reflexivity.
Qed.

(** An invalid range raises [ValueError], at line 19 or before it in
    [int]. *)
Lemma invalid_range_value_error (piece : string) (mo : match_object) :
  variant_expression_match piece = Some mo ->
  invalid_range piece = true ->
  _get_variant_lengths mo = Raise ValueError.
Proof.
  intros Hmo Hbad. unfold invalid_range in Hbad. rewrite Hmo in Hbad.
  apply andb_true_iff in Hbad. destruct Hbad as [Hmax Hlt].
  rewrite get_variant_lengths_cases.
  destruct (negb _); [reflexivity|]. cbv zeta. rewrite Hmax, Hlt. reflexivity.
Qed.

(** The turn of the main loop that looks at an invalid range raises
    [ValueError]. *)
Lemma loop_body_invalid_range (fuel : nat) (target pattern : list string)
    (st : state) (bad : string) :
  getitem pattern (piece_index st) = Ret bad ->
  invalid_range bad = true ->
  loop_body fuel target pattern st = Raise ValueError.
Proof.
  intros Hget Hbad. unfold invalid_range in Hbad.
  destruct (variant_expression_match bad) as [mo|] eqn:Hmo; [|discriminate].
  apply andb_true_iff in Hbad. destruct Hbad as [Hmax Hlt].
  unfold loop_body. rewrite Hget. cbn [bind]. cbv zeta. rewrite Hmo.
  unfold is_variant. rewrite orb_true_r.
  unfold collapse_variants, variant_lengths.
  rewrite (invalid_range_value_error bad mo Hmo); [reflexivity|].
  unfold invalid_range. rewrite Hmo, Hmax, Hlt. reflexivity.
Qed.

(** When the pieces before a range form with a maximum less than its
    minimum are literals equal to the tokens at the same places of the
    target, and the target has one token more at least, [match] raises
    [ValueError]. *)
Lemma invalid_range_after_literals (lits : list string) (t : string) (trest : list string)
    (bad : string) (rest : list string) :
  forallb is_literal lits = true ->
  invalid_range bad = true ->
  match_ (lits ++ t :: trest) (lits ++ bad :: rest) = Raise ValueError.
Proof.
  intros Hlits Hbad. unfold match_, match_fuel.
  set (fuel := (List.length (lits ++ t :: trest)%list
                + List.length (lits ++ bad :: rest)%list)%nat).
  assert (Hfuel : exists n, fuel = (List.length lits + S n)%nat).
  { exists (List.length trest + List.length (lits ++ bad :: rest)%list)%nat.
    unfold fuel. rewrite !List.length_app. simpl. lia. }
  destruct Hfuel as [n Hn].
  pose proof (literal_prefix_loop fuel lits Hlits [] trest rest t bad (S n)) as Hloop.
  cbn [app] in Hloop. rewrite <- Hn in Hloop.
  change (State (len []) (len []) true) with initial in Hloop.
  rewrite Hloop.
  rewrite while_step.
  2:{ unfold loop_cond. cbn [match_possible piece_index target_index andb].
      apply andb_true_iff. split; apply Z.ltb_lt; apply len_app_lt. }
  rewrite (loop_body_invalid_range fuel _ _ _ bad); [reflexivity| |exact Hbad].
  cbn [piece_index]. apply getitem_app.
Qed.


(** C3, as stated, fails: with an empty target, and with a piece before the
    range form that does not equal its token, [match] returns [False] and
    the invalid range [{3,1}] of the pattern raises nothing; so it is not
    true that every pattern with an invalid range raises [ValueError] for
    every target. *)
Lemma invalid_range_not_reached :
  invalid_range "{3,1}" = true
  /\ match_ [] ["{3,1}"] = Ret false
  /\ match_ ["Character"] ["Action"; "{3,1}"] = Ret false
  /\ ~ (forall (target pattern : list string) (bad : string),
           In bad pattern -> invalid_range bad = true ->
           match_ target pattern = Raise ValueError).
Proof.
  repeat split; try reflexivity.
  intros H.
  specialize (H [] ["{3,1}"] "{3,1}" (or_introl eq_refl) eq_refl).
  discriminate H.
Qed.

Lemma variant_lengths_variant (piece : string) (b : bounds) :
  variant_lengths piece (variant_expression_match piece) = Ret b ->
  is_variant piece (variant_expression_match piece) = true.
Proof.
  unfold variant_lengths, is_variant.
  destruct (variant_expression_match piece); [intros _; apply orb_true_r|].
  unfold dict_getitem, contains.
  destruct (dict_get variant_rewrite_rules piece); [reflexivity|discriminate].
Qed.

(** ** Sequences of variant symbols *)

Lemma summed_bounds_step (b0 b : bounds) (bs : list bounds) :
  summed_bounds (sum_step b0 b :: bs) = summed_bounds (b0 :: b :: bs).
Proof.
  destruct b0 as [mn0 mx0], b as [mn mx]. unfold summed_bounds.
  cbn [map fold_right forallb].
  remember (forallb unbounded bs) as u.
  remember (fold_right Z.add 0 (map finite_maximum bs)) as fm.
  remember (fold_right Z.add 0 (map fst bs)) as fs.
  unfold sum_step, unbounded, finite_maximum.
  destruct mx as [x|], mx0 as [x0|]; cbn [fst snd andb];
    destruct u; f_equal; try lia; f_equal; lia.
Qed.

(** What the loop of [_sum_variant_lengths] computes when it is applied to
    one symbol after the other. *)
Lemma fold_sum_step (bs : list bounds) :
  forall b0, fold_left sum_step bs b0 = summed_bounds (b0 :: bs).
Proof.
  induction bs as [|b bs IH]; intros b0.
  - destruct b0 as [mn [mx|]]; unfold summed_bounds; cbn; f_equal;
      try f_equal; lia.
  - cbn [fold_left]. rewrite IH. apply summed_bounds_step.
Qed.

(** Where no symbol lacks a maximum, the program's sum is the sum as the
    specification words it. *)
Lemma summed_bounds_all_finite (bs : list bounds) :
  forall b0,
    forallb (fun b => negb (unbounded b)) (b0 :: bs) = true ->
    summed_bounds (b0 :: bs) = fold_left spec_add bs b0.
Proof.
  induction bs as [|b bs IH]; intros [mn0 mx0] Hfin.
  - cbn in Hfin. destruct mx0 as [x0|]; [|discriminate].
    unfold summed_bounds. cbn. f_equal; [lia|f_equal; lia].
  - cbn [forallb] in Hfin.
    apply andb_true_iff in Hfin. destruct Hfin as [H0 Hfin].
    assert (Hb := Hfin). cbn [forallb] in Hb.
    apply andb_true_iff in Hb. destruct Hb as [Hb Hbs].
    destruct b as [mn mx].
    destruct mx0 as [x0|]; [|discriminate]. destruct mx as [x|]; [|discriminate].
    cbn [fold_left]. rewrite <- IH.
    + change (spec_add (mn0, Some x0) (mn, Some x))
        with (sum_step (mn0, Some x0) (mn, Some x)).
      symmetry. apply summed_bounds_step.
    + cbn [forallb]. rewrite Hbs. reflexivity.
Qed.

Lemma range_bounds_lengths (first piece : string) (b : bounds) :
  range_bounds piece = Some b ->
  is_variant piece (variant_expression_match piece) = true
  /\ variant_lengths first (variant_expression_match piece) = Ret b.
Proof.
  unfold range_bounds, is_variant, variant_lengths.
  destruct (variant_expression_match piece) as [mo|]; [|discriminate].
  destruct (_get_variant_lengths mo) as [b'| |]; try discriminate.
  intros [= <-]. rewrite orb_true_r. auto.
Qed.

(** The collapsing loop over range forms: it absorbs all of them, one per
    turn, and stops at the end of the pattern or at a literal. *)
Lemma collapse_ranges_loop (first : string) (ranges : list string) :
  forall (bs : list bounds) (done : list string) (r : string) (b : bounds)
         (rest : list string) (mn : Z) (mx : option Z) (n : nat),
    range_bounds r = Some b ->
    map range_bounds ranges = map Some bs ->
    match rest with
    | [] => True
    | lit :: _ => is_literal lit = true
    end ->
    exists rs,
      while (collapse_cond (done ++ r :: ranges ++ rest))
        (collapse_body (done ++ r :: ranges ++ rest) first)
        (List.length (r :: ranges) + n)
        (RunState (len done) r (variant_expression_match r) mn mx)
      = Ret rs
      /\ rs_piece_index rs = len done + len (r :: ranges)
      /\ (rs_minimum rs, rs_maximum rs) = fold_left sum_step (b :: bs) (mn, mx).
Proof.
  induction ranges as [|r' ranges IH];
    intros bs done r b rest mn mx n Hr Hbs Hrest.
  - destruct bs as [|b' bs]; [|discriminate]. cbn [app List.length Nat.add].
    destruct (range_bounds_lengths first r b Hr) as [Hvar Hlen].
    rewrite while_step.
    2:{ unfold collapse_cond. cbn [rs_piece_index rs_next_piece rs_mo].
        rewrite Hvar, andb_true_r. apply Z.ltb_lt. apply len_app_lt. }
    unfold collapse_body at 1. cbn [rs_piece_index rs_next_piece rs_mo rs_minimum rs_maximum].
    rewrite Hlen. cbn [bind _sum_variant_lengths fold_left].
    destruct (sum_step (mn, mx) b) as [mn' mx'] eqn:Hsum.
    destruct rest as [|lit rest].
    + replace (len done + 1 <? len (done ++ [r])%list) with false
        by (symmetry; apply Z.ltb_ge; rewrite len_app_one; lia).
      eexists. split; [apply while_exit|split; reflexivity].
      unfold collapse_cond. cbn [rs_piece_index].
      replace (len done + 1 <? len (done ++ [r])%list) with false
        by (symmetry; apply Z.ltb_ge; rewrite len_app_one; lia).
      reflexivity.
    + replace (done ++ r :: lit :: rest)%list with ((done ++ [r]) ++ lit :: rest)%list
        by (rewrite <- List.app_assoc; reflexivity).
      rewrite <- (len_app_one done r).
      replace (len (done ++ [r]) <? len ((done ++ [r]) ++ lit :: rest)) with true
        by (symmetry; apply Z.ltb_lt; apply len_app_lt).
      rewrite getitem_app. cbn [bind].
      eexists. split; [apply while_exit|split; [|reflexivity]].
      * unfold collapse_cond. cbn [rs_piece_index rs_next_piece rs_mo].
        unfold is_literal in Hrest. apply negb_true_iff in Hrest.
        rewrite Hrest. apply andb_false_r.
      * cbn [rs_piece_index]. rewrite len_app_one. reflexivity.
  - destruct bs as [|b' bs]; [discriminate|].
    cbn [map] in Hbs. injection Hbs as Hr' Hbs.
    destruct (range_bounds_lengths first r b Hr) as [Hvar Hlen].
    cbn [List.length Nat.add]. cbn [app].
    rewrite while_step.
    2:{ unfold collapse_cond. cbn [rs_piece_index rs_next_piece rs_mo].
        rewrite Hvar, andb_true_r. apply Z.ltb_lt. apply len_app_lt. }
    unfold collapse_body at 1. cbn [rs_piece_index rs_next_piece rs_mo rs_minimum rs_maximum].
    rewrite Hlen. cbn [bind _sum_variant_lengths fold_left].
    destruct (sum_step (mn, mx) b) as [mn' mx'] eqn:Hsum.
    replace (done ++ r :: r' :: ranges ++ rest)%list
      with ((done ++ [r]) ++ r' :: ranges ++ rest)%list
      by (rewrite <- List.app_assoc; reflexivity).
    rewrite <- (len_app_one done r).
    replace (len (done ++ [r]) <? len ((done ++ [r]) ++ r' :: ranges ++ rest)) with true
      by (symmetry; apply Z.ltb_lt; apply len_app_lt).
    rewrite getitem_app. cbn [bind].
    destruct (IH bs (done ++ [r])%list r' b' rest mn' mx' n Hr' Hbs Hrest)
      as (rs & Hw & Hpi & Hsums).
    exists rs. split; [exact Hw|]. split.
    + rewrite Hpi, len_app_one. unfold len. cbn [List.length]. lia.
    + rewrite Hsums. reflexivity.
Qed.

(** The bounds computed for a sequence of variant symbols at the start of
    a pattern whose first symbol is any variant symbol and whose further
    symbols are range forms, followed by a literal or by nothing. *)
Lemma effective_constraint_of_ranges (first : string) (b0 : bounds)
    (ranges : list string) (bs : list bounds) (rest : list string) :
  variant_lengths first (variant_expression_match first) = Ret b0 ->
  map range_bounds ranges = map Some bs ->
  match rest with
  | [] => True
  | lit :: _ => is_literal lit = true
  end ->
  effective_constraint (first :: ranges ++ rest) = Ret (summed_bounds (b0 :: bs)).
Proof.
  intros Hfirst Hbs Hrest. unfold effective_constraint.
  rewrite getitem_head. cbn [bind].
  unfold collapse_variants. rewrite Hfirst. cbn [bind].
  destruct b0 as [mn mx]. unfold initial. cbn [piece_index].
  destruct ranges as [|r ranges].
  - destruct bs as [|b bs]; [|discriminate]. cbn [app].
    destruct rest as [|lit rest].
    + change (0 + 1 <? len [first]) with false. cbv iota. cbn [bind].
      cbn [run_minimum run_maximum]. rewrite <- fold_sum_step. reflexivity.
    + replace (0 + 1 <? len (first :: lit :: rest)) with true
        by (symmetry; apply Z.ltb_lt; unfold len; cbn [List.length]; lia).
      change (getitem (first :: lit :: rest) (0 + 1)) with (Ret lit).
      cbn [bind]. rewrite while_exit.
      * cbn [bind rs_minimum rs_maximum run_minimum run_maximum].
        rewrite <- fold_sum_step. reflexivity.
      * unfold collapse_cond. cbn [rs_piece_index rs_next_piece rs_mo].
        unfold is_literal in Hrest. apply negb_true_iff in Hrest.
        rewrite Hrest. apply andb_false_r.
  - destruct bs as [|b bs]; [discriminate|].
    cbn [map] in Hbs. injection Hbs as Hr Hbs. cbn [app].
    replace (0 + 1 <? len (first :: r :: ranges ++ rest)) with true
      by (symmetry; apply Z.ltb_lt; unfold len; cbn [List.length]; lia).
    change (getitem (first :: r :: ranges ++ rest) (0 + 1)) with (Ret r).
    cbn [bind].
    destruct (collapse_ranges_loop first ranges bs [first] r b rest mn mx
                (S (List.length rest)) Hr Hbs Hrest)
      as (rs & Hw & _ & Hsums).
    cbn [app] in Hw. change (len [first]) with (0 + 1) in Hw.
    replace (List.length (first :: r :: ranges ++ rest))
      with (List.length (r :: ranges) + S (List.length rest))%nat
      by (cbn [List.length]; rewrite List.length_app; lia).
    rewrite Hw. cbn [bind run_minimum run_maximum].
    rewrite Hsums, fold_sum_step. reflexivity.
Qed.


(** C1, as stated, fails: a missing maximum does not absorb.  For the
    sequence [* {0,1}] the program computes the bounds [(0, 1)], where the sum
    as the specification words it has no maximum, and a target of three
    tokens is not matched. *)
Lemma run_constraint_drops_unbounded :
  _sum_variant_lengths [ (0, None); (0, Some 1) ] = Some (0, Some 1)
  /\ _sum_variant_lengths [ (0, Some 1); (0, None) ] = Some (0, Some 1)
  /\ effective_constraint ["*"; "{0,1}"] = Ret (0, Some 1)
  /\ spec_run_constraint ["*"; "{0,1}"] = Some (0, None)
  /\ match_ ["Character"; "Scope"; "Action"] ["*"; "{0,1}"] = Ret false.
Proof. repeat split; reflexivity. Qed.

(** Line 87 gives an absorbed predefined symbol the bounds of the first
    piece of the sequence: [? *] gets the bounds of [? ?]. *)
Lemma absorbed_symbol_resolved_as_first :
  effective_constraint ["?"; "*"] = Ret (0, Some 2)
  /\ effective_constraint ["?"; "?"] = Ret (0, Some 2)
  /\ match_ ["Character"; "Scope"; "Action"] ["?"; "*"] = Ret false.
Proof. repeat split; reflexivity. Qed.

(** ** Where the program departs from its documentation *)

(** With two finite maximums [_sum_variant_lengths] adds both bounds, as the
    specification words it. *)
Lemma sum_variant_lengths_finite (a b x y : Z) :
  _sum_variant_lengths [ (a, Some x); (b, Some y) ]
  = Some (spec_add (a, Some x) (b, Some y)).
Proof. reflexivity. Qed.

(** C2, evaluated where it fails.  With the empty target the pattern [*]
    is not matched: the main loop is not entered and the piece is left
    over. *)
Theorem star_rejects_empty_target : match_ [] ["*"] = Ret false.
Proof. reflexivity. Qed.

(** C4, evaluated where it fails.  No range of the pattern [{1,2} *] is
    invalid, and [match] raises [KeyError]: line 87 looks up the range form
    in the dictionary of the predefined symbols.  The same holds with [?] and
    [+] after the range form. *)
Theorem range_then_symbol_raises_key_error :
  forallb (fun piece => negb (invalid_range piece)) ["{1,2}"; "*"] = true
  /\ match_ ["Character"] ["{1,2}"; "*"] = Raise KeyError
  /\ match_ ["Character"] ["{1,2}"; "?"] = Raise KeyError
  /\ match_ ["Character"] ["{1,2}"; "+"] = Raise KeyError.
Proof. repeat split; reflexivity. Qed.

(** C6, evaluated where it fails.  The empty target has [0] tokens or more,
    and the pattern [{0,}] does not match it. *)
Theorem open_range_rejects_empty_target :
  open_range_piece 0 = "{0,}"
  /\ (0 <=? List.length (@nil string))%nat = true
  /\ match_ [] [open_range_piece 0] = Ret false.
Proof. repeat split; reflexivity. Qed.

(** C7, evaluated where it fails.  The empty target has exactly [0] tokens,
    and the pattern [{0,0}] does not match it. *)
Theorem exact_range_rejects_empty_target :
  range_piece 0 0 = "{0,0}"
  /\ (List.length (@nil string) =? 0)%nat = true
  /\ match_ [] [range_piece 0 0] = Ret false.
Proof. repeat split; reflexivity. Qed.

(** ** The test suite of the repository *)

Example test_two_sequential__positive :
  match_ ["Character"; "Action"] ["?"; "?"] = Ret true.
Proof. reflexivity. Qed.

Example test_three_sequential__negative :
  match_ ["Character"; "Action"] ["?"; "?"; "?"] = Ret false.
Proof. reflexivity. Qed.

Example test_with_following_invariant__positive :
  match_ ["Character"; "Action"] ["?"; "Action"] = Ret true.
Proof. reflexivity. Qed.

Example test_with_following_invariant__negative :
  match_ ["Character"; "Scope"; "Action"] ["?"; "Action"] = Ret false.
Proof. reflexivity. Qed.

Example test_single_item__positive : match_ ["Character"] ["?"] = Ret true.
Proof. reflexivity. Qed.

Example test_single_item__negative : match_ ["Character"; "Action"] ["?"] = Ret false.
Proof. reflexivity. Qed.

Example test_entire_expression__positive :
  match_ ["Character"; "Action"] ["*"] = Ret true.
Proof. reflexivity. Qed.

Example test_with_following_one_invariant__positive :
  match_ ["Character"; "Action"] ["*"; "Action"] = Ret true.
Proof. reflexivity. Qed.

Example test_with_following_two_invariants__positive :
  match_ ["Character"; "Scope"; "Action"] ["*"; "Action"] = Ret true.
Proof. reflexivity. Qed.

Example test_one_item__positive : match_ ["Character"] ["+"] = Ret true.
Proof. reflexivity. Qed.

Example test_two_items__positive : match_ ["Character"; "Action"] ["+"] = Ret true.
Proof. reflexivity. Qed.

Example test_range_two_items__positive :
  match_ ["Character"; "Action"] ["{2,2}"] = Ret true.
Proof. reflexivity. Qed.

Example test_zero_to_two_items__negative :
  match_ ["Character"; "Scope"; "Action"] ["{0,2}"] = Ret false.
Proof. reflexivity. Qed.

Example test_at_least_two_items__positive :
  match_ ["Character"; "Action"] ["{2,}"] = Ret true.
Proof. reflexivity. Qed.

Example test_at_least_three_items__negative :
  match_ ["Character"; "Action"] ["{3,}"] = Ret false.
Proof. reflexivity. Qed.

(** * Further properties of the program *)

(** ** The range form, [variant_expression] *)

Lemma is_space_not_digit (c : ascii) : is_space c = true -> is_digit c = false.
Proof.
  unfold is_space, is_digit. cbv zeta. intros H.
  destruct (Nat.leb_spec 48 (nat_of_ascii c)) as [H48|H48]; [|reflexivity].
  destruct (Nat.leb_spec (nat_of_ascii c) 57) as [H57|H57]; [|reflexivity].
  exfalso.
  replace (nat_of_ascii c <=? 13)%nat with false in H
    by (symmetry; apply Nat.leb_gt; lia).
  replace (nat_of_ascii c <=? 32)%nat with false in H
    by (symmetry; apply Nat.leb_gt; lia).
  replace (nat_of_ascii c =? 133)%nat with false in H
    by (symmetry; apply Nat.eqb_neq; lia).
  replace (nat_of_ascii c =? 160)%nat with false in H
    by (symmetry; apply Nat.eqb_neq; lia).
  rewrite !andb_false_r in H. discriminate.
Qed.

Lemma skip_spaces_app (w rest : string) :
  all_spaces w = true -> skip_spaces (w ++ rest) = skip_spaces rest.
Proof.
  induction w as [|c w IH]; cbn [all_spaces append skip_spaces]; intros H;
    [reflexivity|].
  apply andb_true_iff in H. destruct H as [Hc Hw].
  rewrite Hc. apply IH. exact Hw.
Qed.

(** Whitespace, then digits, then whitespace, then a character [c] that is
    neither: the digits are the group, and [c] is met next. *)
Lemma digits_group (w d w' : string) (c : ascii) (rest : string) :
  all_spaces w = true -> all_digits d = true -> all_spaces w' = true ->
  is_space c = false -> is_digit c = false ->
  exists after,
    take_digits (skip_spaces (w ++ d ++ w' ++ String c rest)) = (d, after)
    /\ skip_spaces after = String c rest.
Proof.
  intros Hw Hd Hw' Hcs Hcd. rewrite skip_spaces_app by exact Hw.
  destruct d as [|a d].
  - cbn [append]. rewrite skip_spaces_app by exact Hw'.
    rewrite skip_spaces_head by exact Hcs.
    exists (String c rest). cbn [take_digits]. rewrite Hcd.
    split; [reflexivity|apply skip_spaces_head; exact Hcs].
  - exists (w' ++ String c rest). split.
    + assert (Ha : is_space a = false).
      { cbn [all_digits] in Hd. apply andb_true_iff in Hd. destruct Hd as [Ha _].
        destruct (is_space a) eqn:Hs; [|reflexivity].
        apply is_space_not_digit in Hs. congruence. }
      cbn [append]. rewrite skip_spaces_head by exact Ha.
      change (String a (d ++ w' ++ String c rest))
        with (String a d ++ w' ++ String c rest).
      apply take_digits_app; [exact Hd|].
      destruct w' as [|b w']; cbn [append]; [exact Hcd|].
      cbn [all_spaces] in Hw'. apply andb_true_iff in Hw'.
      apply is_space_not_digit. apply Hw'.
    + rewrite skip_spaces_app by exact Hw'. apply skip_spaces_head. exact Hcs.
Qed.

Lemma skip_spaces_spec (s : string) :
  exists w, all_spaces w = true /\ s = w ++ skip_spaces s.
Proof.
  induction s as [|c r IH].
  - exists EmptyString. auto.
  - cbn [skip_spaces]. destruct (is_space c) eqn:Hc.
    + destruct IH as (w & Hw & Hr). exists (String c w). split.
      * cbn [all_spaces]. rewrite Hc, Hw. reflexivity.
      * cbn [append]. f_equal. exact Hr.
    + exists EmptyString. auto.
Qed.

Lemma take_digits_spec (s d rest : string) :
  take_digits s = (d, rest) -> s = d ++ rest /\ all_digits d = true.
Proof.
  revert d rest. induction s as [|c r IH]; cbn [take_digits]; intros d rest.
  - intros [= <- <-]. auto.
  - destruct (is_digit c) eqn:Hc.
    + destruct (take_digits r) as [d' rest'].
      destruct (IH d' rest' eq_refl) as [Hr Hd'].
      intros [= <- <-]. split.
      * cbn [append]. f_equal. exact Hr.
      * cbn [all_digits]. rewrite Hc, Hd'. reflexivity.
    + intros [= <- <-]. auto.
Qed.

Lemma expect_spec (c : ascii) (s rest : string) :
  expect c s = Some rest -> s = String c rest.
Proof.
  unfold expect. destruct s as [|c' r]; [discriminate|].
  destruct (Ascii.eqb_spec c' c) as [->|]; [|discriminate].
  intros [= <-]. reflexivity.
Qed.

(** X1.  The pieces [variant_expression] recognises, and the groups it
    gives: the piece starts with whitespace, an opening brace, whitespace,
    the digits of the minimum, whitespace, a comma, whitespace, the digits of
    the maximum, whitespace and a closing brace; every whitespace and either
    group of digits may be empty, and anything may follow the closing
    brace. *)
Theorem variant_expression_match_shape (piece dmin dmax : string) :
  variant_expression_match piece = Some (MatchObject dmin dmax)
  <-> exists w1 w2 w3 w4 w5 tail,
        all_spaces w1 = true /\ all_spaces w2 = true /\ all_spaces w3 = true
        /\ all_spaces w4 = true /\ all_spaces w5 = true
        /\ all_digits dmin = true /\ all_digits dmax = true
        /\ piece = w1 ++ "{" ++ w2 ++ dmin ++ w3 ++ "," ++ w4 ++ dmax ++ w5
                   ++ "}" ++ tail.
Proof.
  split.
  - unfold variant_expression_match, option_bind.
    destruct (skip_spaces_spec piece) as (w1 & Hw1 & Hp).
    destruct (expect "{" (skip_spaces piece)) as [s1|] eqn:He1; [|discriminate].
    apply expect_spec in He1.
    destruct (skip_spaces_spec s1) as (w2 & Hw2 & Hs1).
    destruct (take_digits (skip_spaces s1)) as [mn s2] eqn:Ht1.
    apply take_digits_spec in Ht1. destruct Ht1 as [Ht1 Hmn].
    destruct (skip_spaces_spec s2) as (w3 & Hw3 & Hs2).
    destruct (expect "," (skip_spaces s2)) as [s3|] eqn:He2; [|discriminate].
    apply expect_spec in He2.
    destruct (skip_spaces_spec s3) as (w4 & Hw4 & Hs3).
    destruct (take_digits (skip_spaces s3)) as [mx s4] eqn:Ht2.
    apply take_digits_spec in Ht2. destruct Ht2 as [Ht2 Hmx].
    destruct (skip_spaces_spec s4) as (w5 & Hw5 & Hs4).
    destruct (expect "}" (skip_spaces s4)) as [s5|] eqn:He3; [|discriminate].
    apply expect_spec in He3.
    intros [= <- <-]. exists w1, w2, w3, w4, w5, s5.
    repeat (split; [assumption|]).
    rewrite Hp, He1. f_equal. cbn [append]. f_equal.
    rewrite Hs1, Ht1. f_equal. f_equal.
    rewrite Hs2, He2. f_equal. cbn [append]. f_equal.
    rewrite Hs3, Ht2. f_equal. f_equal.
    rewrite Hs4, He3. reflexivity.
  - intros (w1 & w2 & w3 & w4 & w5 & tail & Hw1 & Hw2 & Hw3 & Hw4 & Hw5
            & Hmin & Hmax & ->).
    unfold variant_expression_match.
    rewrite skip_spaces_app by exact Hw1.
    change ("{" ++ w2 ++ dmin ++ w3 ++ "," ++ w4 ++ dmax ++ w5 ++ "}" ++ tail)
      with (String "{" (w2 ++ dmin ++ w3 ++ String "," (w4 ++ dmax ++ w5
                                                       ++ String "}" tail))).
    rewrite skip_spaces_head by reflexivity. rewrite expect_head.
    cbn [option_bind].
    destruct (digits_group w2 dmin w3 "," (w4 ++ dmax ++ w5 ++ String "}" tail))
      as (after1 & Ht1 & Hs1); try assumption; try reflexivity.
    rewrite Ht1, Hs1, expect_head. cbn [option_bind].
    destruct (digits_group w4 dmax w5 "}" tail)
      as (after2 & Ht2 & Hs2); try assumption; try reflexivity.
    rewrite Ht2, Hs2, expect_head. reflexivity.
Qed.

Lemma variant_expression_match_shape_witness :
  variant_expression_match " { 12 ,034}.Action" = Some (MatchObject "12" "034").
Proof.
  apply (proj2 (variant_expression_match_shape " { 12 ,034}.Action" "12" "034")).
  exists " ", " ", " ", EmptyString, EmptyString, ".Action".
  repeat split; reflexivity.
Defined.

(** ** The bounds of a range form, [_get_variant_lengths] *)

Lemma get_variant_lengths_outcome (piece : string) (mo : match_object) :
  variant_expression_match piece = Some mo ->
  if negb (range_digits_fit piece) || invalid_range piece
  then _get_variant_lengths mo = Raise ValueError
  else exists mn mx,
         _get_variant_lengths mo = Ret (mn, mx)
         /\ mn = (if truthy (group_min mo) then digits_value (group_min mo) else 0)
         /\ mx = (if truthy (group_max mo)
                  then Some (digits_value (group_max mo)) else None)
         /\ 0 <= mn
         /\ forall x, mx = Some x -> mn <= x.
Proof.
  intros Hmo. unfold range_digits_fit, invalid_range. rewrite Hmo.
  destruct (variant_expression_match_digits _ _ Hmo) as [Hmin _].
  rewrite get_variant_lengths_cases.
  destruct (digits_fit (group_min mo) && digits_fit (group_max mo));
    cbn [negb orb]; [|reflexivity]. cbv zeta.
  assert (H0 : 0 <= (if truthy (group_min mo) then digits_value (group_min mo) else 0)).
  { destruct (truthy (group_min mo)); [apply digits_value_nonneg; exact Hmin|lia]. }
  destruct (truthy (group_max mo)); cbn [andb].
  - destruct (digits_value (group_max mo) <? _) eqn:Hlt; [reflexivity|].
    apply Z.ltb_ge in Hlt. eexists _, _. split; [reflexivity|].
    repeat split; auto. intros x [= <-]. exact Hlt.
  - eexists _, _. split; [reflexivity|]. repeat split; auto. discriminate.
Qed.



(** ** The sum of bounds, [_sum_variant_lengths] *)

Lemma fold_sum_step_all (args : list bounds) :
  _sum_variant_lengths args
  = match args with
    | [] => None
    | _ :: _ => Some (summed_bounds args)
    end.
Proof.
  destruct args as [|first rest]; [reflexivity|].
  unfold _sum_variant_lengths. rewrite fold_sum_step. reflexivity.
Qed.

(** X3.  [_sum_variant_lengths] of any number of bounds: [None] without
    arguments; otherwise the minimums added, and as maximum the sum of the
    maximums that are present, or no maximum when none is present. *)
Theorem sum_variant_lengths_value (args : list bounds) :
  _sum_variant_lengths args
  = match args with
    | [] => None
    | _ :: _ => Some (summed_bounds args)
    end.
Proof. apply fold_sum_step_all. Qed.

Lemma fold_add_permutation {A : Type} (f : A -> Z) (l l' : list A) :
  Permutation l l' ->
  fold_right Z.add 0 (map f l) = fold_right Z.add 0 (map f l').
Proof.
  intros H. induction H; cbn [map fold_right]; lia.
Qed.

Lemma forallb_permutation {A : Type} (f : A -> bool) (l l' : list A) :
  Permutation l l' -> forallb f l = forallb f l'.
Proof.
  intros H. induction H; cbn [forallb]; try congruence.
  destruct (f x), (f y); reflexivity.
Qed.

(** X4.  The result of [_sum_variant_lengths] does not depend on the order
    of its arguments. *)
Theorem sum_variant_lengths_permutation (args args' : list bounds) :
  Permutation args args' ->
  _sum_variant_lengths args = _sum_variant_lengths args'.
Proof.
  intros H. rewrite (fold_sum_step_all args), (fold_sum_step_all args').
  destruct args as [|a args], args' as [|a' args'].
  - reflexivity.
  - apply Permutation_nil in H. discriminate.
  - apply Permutation_sym, Permutation_nil in H. discriminate.
  - f_equal. unfold summed_bounds.
    rewrite (fold_add_permutation fst _ _ H).
    rewrite (fold_add_permutation finite_maximum _ _ H).
    rewrite (forallb_permutation unbounded _ _ H). reflexivity.
Qed.

Lemma sum_variant_lengths_permutation_witness :
  _sum_variant_lengths [ (1, None); (2, Some 3); (0, Some 1) ]
  = _sum_variant_lengths [ (0, Some 1); (1, None); (2, Some 3) ].
Proof.
  apply (sum_variant_lengths_permutation
           [ (1, None); (2, Some 3); (0, Some 1) ]
           [ (0, Some 1); (1, None); (2, Some 3) ]).
  apply Permutation_sym.
  apply (Permutation_cons_app [ (1, None); (2, Some 3) ] [] (0, Some 1)).
  apply Permutation_refl.
Defined.

(** ** The exceptions of [match] *)

(** X5.  [match] raises nothing but [ValueError] and [KeyError]: every
    index it uses is within its sequence, [next_piece] is bound whenever the
    scan reads it, and [_sum_variant_lengths] always gets arguments. *)
Theorem match_raises_only_pattern_errors (target pattern : list string)
    (e : exception) :
  match_ target pattern = Raise e -> e = ValueError \/ e = KeyError.
Proof.
  intros H. pose proof (match_outcome target pattern) as Hout.
  rewrite H in Hout. exact Hout.
Qed.

Lemma match_raises_only_pattern_errors_witness :
  KeyError = ValueError \/ KeyError = KeyError.
Proof.
  apply (match_raises_only_pattern_errors ["Character"] ["{1,2}"; "*"] KeyError).
  reflexivity.
Defined.

(** ** The helpers of the test suite *)

Lemma split_not_nil (sep : ascii) (s : string) : split sep s <> [].
Proof.
  destruct s as [|c r]; cbn [split]; [discriminate|].
  destruct (Ascii.eqb c sep); [discriminate|].
  destruct (split sep r); discriminate.
Qed.

Lemma join_cons_char (sep c : ascii) (piece : string) (pieces : list string) :
  join sep (String c piece :: pieces) = String c (join sep (piece :: pieces)).
Proof. destruct pieces; reflexivity. Qed.

(** [split] and [join] are inverse to each other: joining the pieces of a
    string gives the string back, and splitting the join of pieces gives the
    pieces back when there is at least one piece and the separator occurs in
    none.  The pieces of a string are one more than the occurrences of the
    separator, and the separator occurs in none of them. *)
Lemma split_join (sep : ascii) :
  (forall s, join sep (split sep s) = s)
  /\ (forall s, List.length (split sep s) = S (count sep s))
  /\ (forall s, forallb (fun piece => negb (occurs sep piece)) (split sep s) = true)
  /\ (forall pieces,
         pieces <> [] ->
         forallb (fun piece => negb (occurs sep piece)) pieces = true ->
         split sep (join sep pieces) = pieces).
Proof.
  repeat split.
  - induction s as [|c r IH]; [reflexivity|]. cbn [split].
    destruct (Ascii.eqb_spec c sep) as [->|Hne].
    + pose proof (split_not_nil sep r) as Hnil.
      destruct (split sep r) as [|piece pieces]; [congruence|].
      cbn [join append]. f_equal. exact IH.
    + pose proof (split_not_nil sep r) as Hnil.
      destruct (split sep r) as [|piece pieces]; [congruence|].
      rewrite join_cons_char. f_equal. exact IH.
  - induction s as [|c r IH]; [reflexivity|]. cbn [split count].
    destruct (Ascii.eqb c sep).
    + cbn [List.length]. rewrite IH. reflexivity.
    + pose proof (split_not_nil sep r) as Hnil.
      destruct (split sep r) as [|piece pieces]; [congruence|].
      cbn [List.length] in *. lia.
  - induction s as [|c r IH]; [reflexivity|]. cbn [split].
    destruct (Ascii.eqb c sep) eqn:Hc.
    + cbn [forallb occurs negb]. exact IH.
    + pose proof (split_not_nil sep r) as Hnil.
      destruct (split sep r) as [|piece pieces]; [congruence|].
      cbn [forallb occurs] in *. rewrite Hc. exact IH.
  - induction pieces as [|piece pieces IH]; intros Hnil Hsep; [congruence|].
    cbn [forallb] in Hsep. apply andb_true_iff in Hsep. destruct Hsep as [Hp Hps].
    apply negb_true_iff in Hp.
    destruct pieces as [|piece' pieces].
    + cbn [join]. clear IH Hnil Hps.
      induction piece as [|c r IHr]; [reflexivity|].
      cbn [occurs] in Hp. apply orb_false_iff in Hp. destruct Hp as [Hc Hr].
      cbn [split]. rewrite Hc, (IHr Hr). reflexivity.
    + assert (IH' := IH ltac:(discriminate) Hps). clear IH Hnil.
      change (join sep (piece :: piece' :: pieces))
        with (piece ++ String sep (join sep (piece' :: pieces))).
      induction piece as [|c r IHr].
      * cbn [append split]. rewrite Ascii.eqb_refl, IH'. reflexivity.
      * cbn [occurs] in Hp. apply orb_false_iff in Hp. destruct Hp as [Hc Hr].
        cbn [append split]. rewrite Hc, (IHr Hr). reflexivity.
Qed.

(** X6.  [_prepare_parameters] gives one sequence of pieces for every
    parameter; no sequence is empty, no piece has a dot in it, the pieces of
    a parameter are one more than its dots, and joined with dots they give
    the parameter back.  Pieces without dots, joined with dots and prepared,
    come back as they were. *)
Theorem prepare_parameters_pieces :
  (forall params,
      map (join ".") (_prepare_parameters params) = params
      /\ List.length (_prepare_parameters params) = List.length params
      /\ Forall (fun pieces =>
                   pieces <> []
                   /\ forallb (fun piece => negb (occurs "." piece)) pieces = true)
           (_prepare_parameters params)
      /\ map (@List.length string) (_prepare_parameters params)
         = map (fun param => S (count "." param)) params)
  /\ (forall sequences,
         Forall (fun pieces =>
                   pieces <> []
                   /\ forallb (fun piece => negb (occurs "." piece)) pieces = true)
           sequences ->
         _prepare_parameters (map (join ".") sequences) = sequences).
Proof.
  destruct (split_join ".") as (Hjoin & Hcount & Hdots & Hsplit).
  unfold _prepare_parameters. split.
  - intros params. repeat split.
    + rewrite map_map. rewrite <- (map_id params) at 2.
      apply map_ext. exact Hjoin.
    + apply length_map.
    + apply Forall_forall. intros pieces Hin.
      apply in_map_iff in Hin. destruct Hin as (param & <- & _).
      split; [apply split_not_nil|apply Hdots].
    + rewrite map_map. apply map_ext. exact Hcount.
  - intros sequences Hall. rewrite map_map.
    rewrite <- (map_id sequences) at 2. apply map_ext_Forall.
    apply Forall_forall. intros pieces Hin.
    rewrite Forall_forall in Hall. destruct (Hall pieces Hin) as [Hnil Hnodot].
    apply Hsplit; assumption.
Qed.

Lemma prepare_parameters_pieces_witness :
  _prepare_parameters (map (join ".") [["Character"; "Scope"; "Action"]; ["*"; "Action"]])
  = [["Character"; "Scope"; "Action"]; ["*"; "Action"]].
Proof.
  apply (proj2 prepare_parameters_pieces).
  repeat constructor; discriminate.
Defined.

(** X7.  Through the helper of the tests the pattern [*] matches every
    target string, the empty string too: its split has one piece, the empty
    token, and [match] never sees an empty target. *)
Theorem match_prepared_star (target : string) : match_prepared target "*" = Ret true.
Proof.
  unfold match_prepared, _prepare_parameters. cbn [map].
  change (split "." "*") with ["*"].
  apply match_star_nonempty.
  pose proof (split_not_nil "." target) as Hnil.
  destruct (split "." target); [congruence|cbn [List.length]; lia].
Qed.

(** ** Patterns on which [match] raises nothing *)

Lemma getitem_In {A : Type} (l : list A) (i : Z) (x : A) :
  getitem l i = Ret x -> In x l.
Proof.
  unfold getitem.
  destruct ((if i <? 0 then i + len l else i) <? 0); [discriminate|].
  destruct (nth_error l _) as [y|] eqn:Hn; [|discriminate].
  intros [= <-]. eapply nth_error_In. exact Hn.
Qed.

(** In a pattern of valid ranges that is not mixed, the lookup of lines
    86-89 succeeds for any two variant symbols of the pattern. *)
Lemma unmixed_variant_lengths (pattern : list string) (first piece : string) :
  ranges_valid pattern = true ->
  unmixed pattern = true ->
  In first pattern -> In piece pattern ->
  is_variant first (variant_expression_match first) = true ->
  is_variant piece (variant_expression_match piece) = true ->
  exists b, variant_lengths first (variant_expression_match piece) = Ret b.
Proof.
  intros Hvalid Hmix Hfirst Hpiece Hvf Hvp.
  unfold ranges_valid in Hvalid. rewrite forallb_forall in Hvalid.
  unfold unmixed in Hmix. apply orb_true_iff in Hmix.
  unfold variant_lengths.
  destruct (variant_expression_match piece) as [mo|] eqn:Hmo.
  - specialize (Hvalid piece Hpiece).
    apply andb_true_iff in Hvalid. destruct Hvalid as [Hvalid Hfit].
    apply negb_true_iff in Hvalid.
    pose proof (get_variant_lengths_outcome piece mo Hmo) as Hout.
    rewrite Hvalid, Hfit in Hout. destruct Hout as (mn & mx & Hout & _).
    eauto.
  - destruct Hmix as [Hmix|Hmix]; rewrite forallb_forall in Hmix.
    + specialize (Hmix first Hfirst). apply negb_true_iff in Hmix.
      unfold is_range in Hmix. unfold is_variant in Hvf.
      destruct (variant_expression_match first); [discriminate|].
      rewrite orb_false_r in Hvf. unfold contains in Hvf. unfold dict_getitem.
      destruct (dict_get variant_rewrite_rules first); [eauto|discriminate].
    + specialize (Hmix piece Hpiece). apply negb_true_iff in Hmix.
      unfold is_symbol in Hmix. unfold is_variant in Hvp.
      rewrite Hmix in Hvp. discriminate.
Qed.

Section Unmixed.
Variable fuel : nat.
Variable target : list string.
Variable pattern : list string.
Hypothesis fuel_pattern : (List.length pattern <= fuel)%nat.
Hypothesis fuel_target : (List.length target <= fuel)%nat.
Hypothesis valid : ranges_valid pattern = true.
Hypothesis homogeneous : unmixed pattern = true.

Lemma collapse_body_unmixed (first : Z) (piece : string) (rs : run_state) :
  0 <= first ->
  In piece pattern ->
  is_variant piece (variant_expression_match piece) = true ->
  collapse_inv pattern first rs ->
  collapse_cond pattern rs = true ->
  exists rs', collapse_body pattern piece rs = Ret rs' /\ collapse_inv pattern first rs'.
Proof.
  intros Hfirst Hin Hvar Hinv Hcond.
  pose proof (collapse_body_spec pattern first piece rs Hfirst Hinv Hcond) as Hspec.
  destruct Hinv as (Hpi & Hb & Hmo & Hnp).
  unfold collapse_cond in Hcond. cbv zeta in Hcond.
  apply andb_true_iff in Hcond. destruct Hcond as [Hlt Hv].
  apply Z.ltb_lt in Hlt. rewrite Hmo in Hv.
  destruct (unmixed_variant_lengths pattern piece (rs_next_piece rs))
    as [b Hb']; auto.
  { eapply getitem_In. apply Hnp. exact Hlt. }
  rewrite <- Hmo in Hb'.
  unfold collapse_body in *. cbv zeta in *. rewrite Hb' in *. cbn [bind] in *.
  cbn [_sum_variant_lengths fold_left] in *.
  destruct (sum_step (rs_minimum rs, rs_maximum rs) b) as [minimum maximum].
  destruct (rs_piece_index rs + 1 <? len pattern) eqn:Hnext.
  - apply Z.ltb_lt in Hnext.
    destruct (getitem_in_range pattern (rs_piece_index rs + 1)) as (np & Hget & _);
      [lia|].
    rewrite Hget in *. cbn [bind] in *. eexists. split; [reflexivity|apply Hspec].
  - eexists. split; [reflexivity|apply Hspec].
Qed.

Lemma collapse_variants_unmixed (st : state) (piece : string) :
  0 <= piece_index st < len pattern ->
  In piece pattern ->
  is_variant piece (variant_expression_match piece) = true ->
  exists r,
    collapse_variants fuel pattern st piece (variant_expression_match piece) = Ret r.
Proof.
  intros Hpi Hin Hvar.
  pose proof (collapse_variants_spec fuel pattern fuel_pattern st piece Hpi) as Hspec.
  destruct (unmixed_variant_lengths pattern piece piece) as [[mn mx] Hb]; auto.
  pose proof (variant_lengths_ok _ _ _ Hb) as [Hb1 Hb2]. cbn in Hb1, Hb2.
  unfold collapse_variants in *. cbv zeta in *. rewrite Hb in *. cbn [bind] in *.
  destruct (piece_index st + 1 <? len pattern) eqn:Hnext; [|eauto].
  apply Z.ltb_lt in Hnext.
  destruct (getitem_in_range pattern (piece_index st + 1)) as (np & Hget & _); [lia|].
  rewrite Hget in *. cbn [bind] in *.
  pose proof (while_outcome (collapse_cond pattern) (collapse_body pattern piece)
                (collapse_inv pattern (piece_index st)) (fun _ => False)) as Hout.
  specialize (Hout) with
    (fuel := fuel)
    (s := RunState (piece_index st + 1) np (variant_expression_match np) mn mx).
  destruct (while _ _ fuel _) as [rs| |]; cbn [bind] in *;
    [eauto| |contradiction].
  exfalso. apply Hout.
  - intros s Hs Hc.
    destruct (collapse_body_unmixed (piece_index st) piece s) as (rs' & Hrs' & Hinv');
      auto; try lia.
    rewrite Hrs'. exact Hinv'.
  - unfold collapse_inv. cbn. repeat split; auto; lia.
Qed.

Lemma loop_body_unmixed (st : state) :
  0 <= target_index st -> 0 <= piece_index st ->
  loop_cond target pattern st = true ->
  exists st', loop_body fuel target pattern st = Ret st'.
Proof.
  intros Hti Hpi Hcond.
  pose proof (loop_body_spec fuel target pattern fuel_pattern fuel_target st
                Hti Hpi Hcond) as Hspec.
  unfold loop_cond in Hcond. cbv zeta in Hcond.
  apply andb_true_iff in Hcond. destruct Hcond as [Hcond Htlt].
  apply andb_true_iff in Hcond. destruct Hcond as [Hposs Hplt].
  apply Z.ltb_lt in Htlt. apply Z.ltb_lt in Hplt.
  unfold loop_body in *.
  destruct (getitem_in_range pattern (piece_index st)) as (piece & Hget & _); [lia|].
  rewrite Hget in *. cbn [bind] in *. cbv zeta in *.
  destruct (is_variant piece (variant_expression_match piece)) eqn:Hvar.
  - destruct (collapse_variants_unmixed st piece) as [r Hr]; auto.
    { eapply getitem_In. exact Hget. }
    pose proof (collapse_variants_spec fuel pattern fuel_pattern st piece
                  (conj Hpi Hplt)) as Hrs.
    rewrite Hr in *. cbn [bind] in *.
    destruct Hrs as (Hrpi & Hb & Hlit).
    destruct (consume_run_spec fuel target pattern fuel_pattern fuel_target st r)
      as (st' & Hst' & _); auto; try lia.
    { intros Hlt. destruct (Hlit Hlt) as (lit & Hl & _). exists lit. exact Hl. }
    eauto.
  - destruct (getitem_in_range target (target_index st)) as (t & Hgt & _); [lia|].
    rewrite Hgt. cbn [bind]. destruct (String.eqb t piece); eauto.
Qed.

Lemma match_fuel_unmixed : exists b, match_fuel fuel target pattern = Ret b.
Proof.
  pose proof (match_fuel_outcome fuel target pattern fuel_pattern fuel_target)
    as [Hout _].
  unfold match_fuel in *.
  pose proof (while_outcome (loop_cond target pattern) (loop_body fuel target pattern)
                main_inv (fun _ => False)) as Hw.
  specialize (Hw) with (fuel := fuel) (s := initial).
  destruct (while _ _ fuel initial) as [st| |]; cbn [bind] in *;
    [eauto| |contradiction].
  exfalso. apply Hw.
  - intros s [Hti Hpi] Hc.
    destruct (loop_body_unmixed s Hti Hpi Hc) as [st' Hst'].
    pose proof (loop_body_spec fuel target pattern fuel_pattern fuel_target s
                  Hti Hpi Hc) as Hspec.
    rewrite Hst' in *. split; lia.
  - split; cbn; lia.
Qed.
End Unmixed.

(** X8.  When no range form of the pattern has a maximum less than its
    minimum or a bound of more digits than [int] accepts (4300), and the
    pattern has no range form or has no predefined symbol, [match] returns a
    truth value for every target: it raises nothing. *)
Theorem match_unmixed_returns (target pattern : list string) :
  ranges_valid pattern = true ->
  unmixed pattern = true ->
  exists b, match_ target pattern = Ret b.
Proof.
  intros Hvalid Hmix. unfold match_.
  apply match_fuel_unmixed; auto; lia.
Qed.

Lemma match_unmixed_returns_witness :
  exists b, match_ ["Character"; "Scope"; "Action"] ["{1,}"; "{0,1}"; "Action"] = Ret b.
Proof.
  apply (match_unmixed_returns ["Character"; "Scope"; "Action"]
           ["{1,}"; "{0,1}"; "Action"]); reflexivity.
Defined.

(** ** Literal pieces before the rest of a pattern *)

Lemma omap_bind {A B C : Type} (f : B -> C) (m : outcome A) (k : A -> outcome B) :
  omap f (x <- m ;; k x) = (x <- m ;; omap f (k x)).
Proof. destruct m; reflexivity. Qed.

(** Two loops whose states correspond through [f] take the same turns. *)
Lemma while_shift {St : Type} (cond1 cond2 : St -> bool)
    (body1 body2 : St -> outcome St) (f : St -> St) (I : St -> Prop) :
  (forall s, I s -> cond2 (f s) = cond1 s) ->
  (forall s, I s -> cond1 s = true -> body2 (f s) = omap f (body1 s)) ->
  (forall s s', I s -> cond1 s = true -> body1 s = Ret s' -> I s') ->
  forall fuel s,
    I s -> while cond2 body2 fuel (f s) = omap f (while cond1 body1 fuel s).
Proof.
  intros Hcond Hbody Hinv fuel.
  induction fuel as [|fuel IH]; intros s Hs; cbn [while];
    rewrite (Hcond s Hs); destruct (cond1 s) eqn:Hc; try reflexivity.
  rewrite (Hbody s Hs Hc).
  destruct (body1 s) as [s'| |] eqn:Hb; cbn [omap bind]; try reflexivity.
  apply IH. eapply Hinv; eauto.
Qed.

Lemma len_app {A : Type} (l1 l2 : list A) : len (l1 ++ l2) = len l1 + len l2.
Proof. unfold len. rewrite List.length_app. lia. Qed.

Lemma getitem_shift {A : Type} (done l : list A) (i : Z) :
  0 <= i -> getitem (done ++ l) (i + len done) = getitem l i.
Proof.
  intros Hi. unfold getitem. pose proof (len_nonneg done) as H0.
  assert (H1 : (i + len done <? 0) = false) by (apply Z.ltb_ge; lia).
  assert (H2 : (i <? 0) = false) by (apply Z.ltb_ge; lia).
  rewrite H1, H2. cbv iota. rewrite H1, H2.
  replace (Z.to_nat (i + len done)) with (List.length done + Z.to_nat i)%nat
    by (unfold len; lia).
  rewrite nth_error_app2 by lia.
  replace (List.length done + Z.to_nat i - List.length done)%nat with (Z.to_nat i)
    by lia.
  reflexivity.
Qed.

Lemma slice_from_shift {A : Type} (done l : list A) (i : Z) :
  0 <= i -> slice_from (done ++ l) (i + len done) = slice_from l i.
Proof.
  intros Hi. unfold slice_from. pose proof (len_nonneg done) as H0.
  assert (H1 : (i + len done <? 0) = false) by (apply Z.ltb_ge; lia).
  assert (H2 : (i <? 0) = false) by (apply Z.ltb_ge; lia).
  rewrite H1, H2.
  replace (Z.to_nat (i + len done)) with (List.length done + Z.to_nat i)%nat
    by (unfold len; lia).
  rewrite skipn_app.
  replace (List.length done + Z.to_nat i - List.length done)%nat with (Z.to_nat i)
    by lia.
  rewrite skipn_all2 by lia. reflexivity.
Qed.

Section Shift.
Variable fuel : nat.
Variable done : list string.
Variable target : list string.
Variable pattern : list string.

Let k : Z := len done.

Lemma collapse_cond_shift (rs : run_state) :
  collapse_cond (done ++ pattern) (shift_run_state k rs) = collapse_cond pattern rs.
Proof.
  unfold collapse_cond, shift_run_state. cbn [rs_piece_index rs_next_piece rs_mo].
  rewrite len_app. f_equal.
  destruct (Z.ltb_spec (rs_piece_index rs) (len pattern));
    [apply Z.ltb_lt|apply Z.ltb_ge]; subst k; lia.
Qed.

Lemma collapse_body_shift (piece : string) (rs : run_state) :
  0 <= rs_piece_index rs ->
  collapse_body (done ++ pattern) piece (shift_run_state k rs)
  = omap (shift_run_state k) (collapse_body pattern piece rs).
Proof.
  intros Hpi. unfold collapse_body, shift_run_state. cbv zeta.
  cbn [rs_piece_index rs_next_piece rs_mo rs_minimum rs_maximum].
  destruct (variant_lengths piece (rs_mo rs)) as [new| |]; cbn [bind omap];
    try reflexivity.
  cbn [_sum_variant_lengths fold_left].
  destruct (sum_step (rs_minimum rs, rs_maximum rs) new) as [minimum maximum].
  rewrite len_app.
  replace (rs_piece_index rs + k + 1 <? len done + len pattern)
    with (rs_piece_index rs + 1 <? len pattern)
    by (destruct (Z.ltb_spec (rs_piece_index rs + 1) (len pattern));
        symmetry; [apply Z.ltb_lt|apply Z.ltb_ge]; subst k; lia).
  destruct (rs_piece_index rs + 1 <? len pattern).
  - replace (rs_piece_index rs + k + 1) with (rs_piece_index rs + 1 + len done)
      by (subst k; lia).
    rewrite getitem_shift by lia.
    destruct (getitem pattern (rs_piece_index rs + 1)) as [np| |];
      cbn [bind omap rs_piece_index rs_next_piece rs_mo rs_minimum rs_maximum];
      reflexivity.
  - cbn [omap rs_piece_index rs_next_piece rs_mo rs_minimum rs_maximum].
    do 2 f_equal. lia.
Qed.

Lemma collapse_variants_shift (st : state) (piece : string)
    (mo : option match_object) :
  0 <= piece_index st ->
  collapse_variants fuel (done ++ pattern) (shift k st) piece mo
  = omap (shift_run k) (collapse_variants fuel pattern st piece mo).
Proof.
  intros Hpi. unfold collapse_variants, shift. cbv zeta. cbn [piece_index].
  destruct (variant_lengths piece mo) as [[minimum maximum]| |]; cbn [bind omap];
    try reflexivity.
  rewrite len_app.
  replace (piece_index st + k + 1 <? len done + len pattern)
    with (piece_index st + 1 <? len pattern)
    by (destruct (Z.ltb_spec (piece_index st + 1) (len pattern));
        symmetry; [apply Z.ltb_lt|apply Z.ltb_ge]; subst k; lia).
  replace (piece_index st + k + 1) with (piece_index st + 1 + len done)
    by (subst k; lia).
  destruct (piece_index st + 1 <? len pattern); [|reflexivity].
  rewrite getitem_shift by lia.
  destruct (getitem pattern (piece_index st + 1)) as [np| |]; cbn [bind omap];
    try reflexivity.
  change (RunState (piece_index st + 1 + len done) np
            (variant_expression_match np) minimum maximum)
    with (shift_run_state k
            (RunState (piece_index st + 1) np (variant_expression_match np)
               minimum maximum)).
  rewrite (while_shift (collapse_cond pattern) (collapse_cond (done ++ pattern))
             (collapse_body pattern piece) (collapse_body (done ++ pattern) piece)
             (shift_run_state k) (fun rs => 0 <= rs_piece_index rs)).
  - destruct (while _ _ fuel _) as [rs| |]; reflexivity.
  - intros s _. apply collapse_cond_shift.
  - intros s Hs _. apply collapse_body_shift. exact Hs.
  - intros s s' Hs _ Hb. apply collapse_body_index in Hb. lia.
  - cbn. lia.
Qed.

Lemma scan_shift (next_piece : option string) (s : bool * Z) :
  0 <= snd s ->
  while (scan_cond (done ++ target)) (scan_body (done ++ target) next_piece) fuel
    (shift_scan k s)
  = omap (shift_scan k)
      (while (scan_cond target) (scan_body target next_piece) fuel s).
Proof.
  intros Hs.
  apply (while_shift (scan_cond target) (scan_cond (done ++ target))
           (scan_body target next_piece) (scan_body (done ++ target) next_piece)
           (shift_scan k) (fun s => 0 <= snd s)).
  - intros [m ti] _. unfold scan_cond, shift_scan. cbn [fst snd].
    rewrite len_app. f_equal.
    destruct (Z.ltb_spec ti (len target)); [apply Z.ltb_lt|apply Z.ltb_ge];
      subst k; lia.
  - intros [m ti] Hti _. unfold scan_body, shift_scan. cbn [fst snd] in *.
    subst k. rewrite getitem_shift by exact Hti.
    destruct (getitem target ti) as [t| |]; cbn [bind omap]; try reflexivity.
    destruct next_piece; [|reflexivity].
    cbn [omap fst snd]. do 2 f_equal. lia.
  - intros [m ti] [m' ti'] Hti _. unfold scan_body. cbn [fst snd] in *.
    destruct (getitem target ti) as [t| |]; cbn [bind]; try discriminate.
    destruct next_piece; [|discriminate]. intros [= <- <-]. lia.
  - exact Hs.
Qed.

Lemma consume_run_shift (st : state) (r : run) :
  0 <= target_index st ->
  0 <= run_minimum r ->
  consume_run fuel (done ++ target) (done ++ pattern) (shift k st) (shift_run k r)
  = omap (shift k) (consume_run fuel target pattern st r).
Proof.
  intros Hti Hmin. unfold consume_run, shift, shift_run. cbv zeta.
  cbn [run_piece_index run_minimum run_maximum run_next_piece
       target_index piece_index match_possible].
  rewrite !len_app.
  replace (run_piece_index r + k =? len done + len pattern)
    with (run_piece_index r =? len pattern)
    by (destruct (Z.eqb_spec (run_piece_index r) (len pattern));
        symmetry; [apply Z.eqb_eq|apply Z.eqb_neq]; subst k; lia).
  destruct (run_piece_index r =? len pattern).
  - subst k. rewrite slice_from_shift by exact Hti.
    destruct (_ && _).
    + destruct (run_maximum r); cbn [omap target_index piece_index match_possible];
        do 2 f_equal; lia.
    + reflexivity.
  - destruct (run_maximum r) as [mx|].
    + cbn [omap target_index piece_index match_possible]. do 2 f_equal. lia.
    + replace (false, target_index st + k + run_minimum r)
        with (shift_scan k (false, target_index st + run_minimum r))
        by (unfold shift_scan; cbn [fst snd]; f_equal; lia).
      rewrite scan_shift by (cbn [snd]; lia).
      destruct (while _ _ fuel _) as [[m ti]| |]; cbn [omap bind]; try reflexivity.
      unfold shift_scan. cbn [fst snd target_index piece_index match_possible].
      destruct m; [|reflexivity]. do 2 f_equal. lia.
Qed.

Lemma loop_cond_shift (st : state) :
  loop_cond (done ++ target) (done ++ pattern) (shift k st)
  = loop_cond target pattern st.
Proof.
  unfold loop_cond, shift. cbn [target_index piece_index match_possible].
  rewrite !len_app. f_equal; [f_equal|].
  - destruct (Z.ltb_spec (piece_index st) (len pattern));
      [apply Z.ltb_lt|apply Z.ltb_ge]; subst k; lia.
  - destruct (Z.ltb_spec (target_index st) (len target));
      [apply Z.ltb_lt|apply Z.ltb_ge]; subst k; lia.
Qed.

Lemma result_of_shift (st : state) :
  result_of (done ++ target) (done ++ pattern) (shift k st)
  = result_of target pattern st.
Proof.
  unfold result_of, shift. cbn [target_index piece_index].
  rewrite !len_app, !Z.geb_leb. f_equal.
  - destruct (Z.leb_spec (len target) (target_index st));
      [apply Z.leb_le|apply Z.leb_gt]; subst k; lia.
  - destruct (Z.leb_spec (len pattern) (piece_index st));
      [apply Z.leb_le|apply Z.leb_gt]; subst k; lia.
Qed.

Hypothesis fuel_pattern : (List.length pattern <= fuel)%nat.

Lemma loop_body_shift (st : state) :
  0 <= target_index st -> 0 <= piece_index st ->
  loop_cond target pattern st = true ->
  loop_body fuel (done ++ target) (done ++ pattern) (shift k st)
  = omap (shift k) (loop_body fuel target pattern st).
Proof.
  intros Hti Hpi Hcond.
  assert (Hplt : piece_index st < len pattern).
  { unfold loop_cond in Hcond. cbv zeta in Hcond.
    apply andb_true_iff in Hcond. destruct Hcond as [Hcond _].
    apply andb_true_iff in Hcond. destruct Hcond as [_ Hplt].
    apply Z.ltb_lt in Hplt. exact Hplt. }
  unfold loop_body.
  replace (piece_index (shift k st)) with (piece_index st + len done) by reflexivity.
  replace (target_index (shift k st)) with (target_index st + len done) by reflexivity.
  rewrite !getitem_shift by assumption.
  destruct (getitem pattern (piece_index st)) as [piece| |]; cbn [bind omap];
    try reflexivity.
  cbv zeta. destruct (is_variant piece (variant_expression_match piece)).
  - rewrite collapse_variants_shift by exact Hpi.
    pose proof (collapse_variants_spec fuel pattern fuel_pattern st piece
                  (conj Hpi Hplt)) as Hspec.
    destruct (collapse_variants fuel pattern st piece _) as [r| |];
      cbn [bind omap]; try reflexivity.
    destruct Hspec as (_ & [Hmin _] & _). cbn in Hmin.
    apply consume_run_shift; assumption.
  - destruct (getitem target (target_index st)) as [t| |]; cbn [bind omap];
      try reflexivity.
    destruct (String.eqb t piece); unfold shift;
      cbn [omap target_index piece_index match_possible]; [|reflexivity].
    f_equal. f_equal; subst k; lia.
Qed.
End Shift.

Lemma literal_prefix_turns (fuel : nat) (lits : list string) :
  forallb is_literal lits = true ->
  forall (done target pattern : list string) (n : nat),
    while (loop_cond (done ++ lits ++ target) (done ++ lits ++ pattern))
      (loop_body fuel (done ++ lits ++ target) (done ++ lits ++ pattern))
      (List.length lits + n) (State (len done) (len done) true)
    = while (loop_cond (done ++ lits ++ target) (done ++ lits ++ pattern))
        (loop_body fuel (done ++ lits ++ target) (done ++ lits ++ pattern))
        n (State (len (done ++ lits)) (len (done ++ lits)) true).
Proof.
  induction lits as [|l lits IH]; intros Hlits done target pattern n.
  - rewrite List.app_nil_r. reflexivity.
  - cbn [forallb] in Hlits. apply andb_true_iff in Hlits. destruct Hlits as [Hl Hlits].
    unfold is_literal in Hl. apply negb_true_iff in Hl.
    cbn [List.length Nat.add]. cbn [app].
    rewrite while_step.
    2:{ unfold loop_cond. cbn [match_possible piece_index target_index andb].
        apply andb_true_iff. split; apply Z.ltb_lt; apply len_app_lt. }
    unfold loop_body at 1. cbn [piece_index target_index match_possible].
    rewrite !getitem_app. cbn [bind]. cbv zeta. rewrite Hl, String.eqb_refl.
    cbn [bind].
    replace (done ++ l :: lits ++ target)%list
      with ((done ++ [l]) ++ lits ++ target)%list
      by (rewrite <- List.app_assoc; reflexivity).
    replace (done ++ l :: lits ++ pattern)%list
      with ((done ++ [l]) ++ lits ++ pattern)%list
      by (rewrite <- List.app_assoc; reflexivity).
    rewrite <- (len_app_one done l).
    rewrite (IH Hlits (done ++ [l])%list target pattern n).
    replace ((done ++ [l]) ++ lits)%list with (done ++ l :: lits)%list
      by (rewrite <- List.app_assoc; reflexivity).
    reflexivity.
Qed.

(** Literal pieces at the start of a pattern that equal the tokens at the
    start of the target can be left out on both sides. *)
Lemma cancel_literals (lits target pattern : list string) :
  forallb is_literal lits = true ->
  match_ (lits ++ target) (lits ++ pattern) = match_ target pattern.
Proof.
  intros Hlits. unfold match_ at 1. unfold match_fuel.
  set (fuel := (List.length (lits ++ target)%list
                + List.length (lits ++ pattern)%list)%nat).
  set (n := (List.length lits + List.length target + List.length pattern)%nat).
  assert (Hfuel : fuel = (List.length lits + n)%nat)
    by (unfold fuel, n; rewrite !List.length_app; lia).
  pose proof (literal_prefix_turns fuel lits Hlits [] target pattern n) as Hloop.
  cbn [app] in Hloop. rewrite <- Hfuel in Hloop.
  change (State (len []) (len []) true) with initial in Hloop.
  rewrite Hloop. clear Hloop.
  change (State (len lits) (len lits) true) with (shift (len lits) initial).
  rewrite (while_shift (loop_cond target pattern)
             (loop_cond (lits ++ target) (lits ++ pattern))
             (loop_body fuel target pattern)
             (loop_body fuel (lits ++ target) (lits ++ pattern))
             (shift (len lits)) main_inv).
  - assert (Hsame :
      while (loop_cond target pattern) (loop_body fuel target pattern) n initial
      = while (loop_cond target pattern)
          (loop_body (List.length target + List.length pattern) target pattern)
          (List.length target + List.length pattern) initial).
    { apply while_mono.
      - intros s Hs. apply loop_body_mono; [lia|exact Hs].
      - unfold n. lia.
      - pose proof (match_outcome target pattern) as Hout.
        unfold match_, match_fuel in Hout.
        destruct (while _ _ _ initial); [discriminate|discriminate|contradiction]. }
    rewrite Hsame. unfold match_, match_fuel.
    destruct (while (loop_cond target pattern)
                (loop_body (List.length target + List.length pattern) target pattern)
                (List.length target + List.length pattern) initial)
      as [st| |]; cbn [omap bind]; try reflexivity.
    pose proof (result_of_shift lits target pattern st) as Hres.
    cbv zeta in Hres. rewrite Hres. reflexivity.
  - intros s _. apply loop_cond_shift.
  - intros s [Hti Hpi] Hc. apply loop_body_shift; auto. lia.
  - intros s s' [Hti Hpi] Hc Hb.
    pose proof (loop_body_spec fuel target pattern) as Hspec.
    specialize (Hspec ltac:(lia) ltac:(lia) s Hti Hpi Hc).
    rewrite Hb in Hspec. split; lia.
  - split; cbn; lia.
Qed.

(** X9.  Literal pieces at the start of the pattern that equal the tokens
    at the start of the target do not change the outcome: [match] of the two
    sequences is [match] of what follows them.  In particular a target is
    matched by itself as a pattern of literals only when nothing is left on
    either side. *)
Theorem match_literal_prefix (lits target pattern : list string) :
  forallb is_literal lits = true ->
  match_ (lits ++ target) (lits ++ pattern) = match_ target pattern.
Proof. apply cancel_literals. Qed.

Lemma match_literal_prefix_witness :
  match_ (["Character"; "Scope"] ++ ["Action"; "Run"])
    (["Character"; "Scope"] ++ ["*"; "Run"])
  = match_ ["Action"; "Run"] ["*"; "Run"].
Proof.
  apply (match_literal_prefix ["Character"; "Scope"] ["Action"; "Run"] ["*"; "Run"]).
  reflexivity.
Defined.

(** ** Patterns of literals *)

Lemma match_nil_target (pattern : list string) :
  match_ [] pattern = Ret (match pattern with [] => true | _ :: _ => false end).
Proof.
  unfold match_, match_fuel. rewrite while_exit.
  - cbn [bind]. unfold result_of, initial. cbn [target_index piece_index].
    destruct pattern as [|piece rest]; [reflexivity|].
    rewrite (geb_false 0 (len (piece :: rest))) by (unfold len; simpl; lia).
    reflexivity.
  - unfold loop_cond, initial. cbn. apply andb_false_r.
Qed.

Lemma match_nil_pattern (target : list string) :
  match_ target [] = Ret (match target with [] => true | _ :: _ => false end).
Proof.
  unfold match_, match_fuel. rewrite while_exit by reflexivity.
  cbn [bind]. unfold result_of, initial. cbn [target_index piece_index].
  destruct target as [|t rest]; [reflexivity|].
  rewrite (geb_false 0 (len (t :: rest))) by (unfold len; simpl; lia).
  reflexivity.
Qed.

Lemma match_literal_mismatch (t p : string) (target pattern : list string) :
  is_literal p = true -> String.eqb t p = false ->
  match_ (t :: target) (p :: pattern) = Ret false.
Proof.
  intros Hp Hne. unfold is_literal in Hp. apply negb_true_iff in Hp.
  unfold match_, match_fuel. cbn [List.length Nat.add].
  rewrite while_step by (apply loop_cond_initial; simpl; lia).
  unfold loop_body at 1, initial. cbn [piece_index target_index match_possible].
  rewrite !getitem_head. cbn [bind]. cbv zeta. rewrite Hp, Hne. cbn [bind].
  rewrite while_exit by reflexivity. cbn [bind].
  unfold result_of. cbn [target_index piece_index].
  rewrite (geb_false 0 (len (t :: target))) by (unfold len; simpl; lia).
  reflexivity.
Qed.

(** X10.  A pattern without variant symbols matches exactly the target
    that is equal to it, token by token. *)
Theorem match_literals (pattern : list string) :
  forallb is_literal pattern = true ->
  forall target, match_ target pattern = Ret (list_eqb target pattern).
Proof.
  induction pattern as [|p pattern IH]; intros Hlit target.
  - rewrite match_nil_pattern. destruct target; reflexivity.
  - cbn [forallb] in Hlit. apply andb_true_iff in Hlit. destruct Hlit as [Hp Hlit].
    destruct target as [|t target]; [apply match_nil_target|].
    cbn [list_eqb]. destruct (String.eqb_spec t p) as [->|Hne].
    + change (p :: target) with ([p] ++ target)%list.
      change (p :: pattern) with ([p] ++ pattern)%list.
      rewrite cancel_literals by (cbn [forallb]; rewrite Hp; reflexivity).
      cbn [andb]. apply IH. exact Hlit.
    + apply match_literal_mismatch; [exact Hp|].
      apply String.eqb_neq. exact Hne.
Qed.

Lemma match_literals_witness :
  match_ ["Character"; "Scope"] ["Character"; "Action"]
  = Ret (list_eqb ["Character"; "Scope"] ["Character"; "Action"]).
Proof.
  apply (match_literals ["Character"; "Action"]). reflexivity.
Defined.

(** ** A variant symbol before the last literal *)

Lemma index_of_bound (lit : string) (tokens : list string) (i : nat) :
  index_of lit tokens = Some i -> (i < List.length tokens)%nat.
Proof.
  revert i. induction tokens as [|t rest IH]; cbn [index_of]; intros i;
    [discriminate|].
  destruct (String.eqb t lit).
  - intros [= <-]. cbn [List.length]. lia.
  - destruct (index_of lit rest) as [j|]; [|discriminate].
    intros [= <-]. specialize (IH j eq_refl). cbn [List.length]. lia.
Qed.

(** The scan over the tokens [rest] that follow [done]: it stops after the
    first token equal to [lit], or at the end of the target. *)
Lemma scan_index_of (lit : string) (rest : list string) :
  forall (done : list string) (fuel : nat),
    (List.length rest <= fuel)%nat ->
    while (scan_cond (done ++ rest)) (scan_body (done ++ rest) (Some lit)) fuel
      (false, len done)
    = Ret (match index_of lit rest with
           | Some i => (true, len done + Z.of_nat i + 1)
           | None => (false, len (done ++ rest))
           end).
Proof.
  induction rest as [|t rest IH]; intros done fuel Hfuel.
  - rewrite List.app_nil_r. apply while_exit.
    unfold scan_cond. cbn [fst snd negb andb]. apply Z.ltb_irrefl.
  - destruct fuel as [|fuel]; [cbn [List.length] in Hfuel; lia|].
    rewrite while_step
      by (unfold scan_cond; cbn [fst snd negb andb]; apply Z.ltb_lt, len_app_lt).
    unfold scan_body at 1. cbn [fst snd]. rewrite getitem_app. cbn [bind index_of].
    destruct (String.eqb t lit).
    + rewrite while_exit by reflexivity. do 2 f_equal. lia.
    + replace (done ++ t :: rest)%list with ((done ++ [t]) ++ rest)%list
        by (rewrite <- List.app_assoc; reflexivity).
      rewrite <- (len_app_one done t).
      rewrite IH by (cbn [List.length] in Hfuel; lia).
      destruct (index_of lit rest) as [i|]; [|reflexivity].
      do 2 f_equal. rewrite len_app_one. lia.
Qed.

Lemma collapse_before_literal (fuel : nat) (piece lit : string)
    (mn : Z) (mx : option Z) :
  variant_lengths piece (variant_expression_match piece) = Ret (mn, mx) ->
  is_literal lit = true ->
  collapse_variants fuel [piece; lit] initial piece (variant_expression_match piece)
  = Ret (Run 1 (Some lit) mn mx).
Proof.
  intros Hvl Hlit. unfold is_literal in Hlit. apply negb_true_iff in Hlit.
  unfold collapse_variants. rewrite Hvl. cbn [bind]. unfold initial.
  cbn [piece_index].
  change (0 + 1 <? len [piece; lit]) with true. cbv iota.
  change (getitem [piece; lit] (0 + 1)) with (Ret lit). cbn [bind].
  rewrite while_exit; [reflexivity|].
  unfold collapse_cond. cbn [rs_piece_index rs_next_piece rs_mo].
  rewrite Hlit. apply andb_false_r.
Qed.


(** X11.  A variant symbol without maximum before the last, literal piece:
    after the minimum of the symbol the scan goes to the first token equal
    to the literal, and the target is matched exactly when that token is its
    last one.  Later occurrences of the literal are not tried. *)
Theorem match_unbounded_then_literal (target : list string) (piece lit : string)
    (mn : Z) :
  variant_lengths piece (variant_expression_match piece) = Ret (mn, None) ->
  is_literal lit = true ->
  match_ target [piece; lit]
  = Ret (match index_of lit (skipn (Z.to_nat mn) target) with
         | Some i => (S i =? List.length (skipn (Z.to_nat mn) target))%nat
         | None => false
         end).
Proof.
  intros Hvl Hlit.
  destruct target as [|t0 target0] eqn:Htarget.
  { rewrite match_nil_target, skipn_nil. reflexivity. }
  rewrite <- Htarget.
  assert (Hlen : (0 < List.length target)%nat) by (subst target; simpl; lia).
  clear Htarget t0 target0.
  pose proof (variant_lengths_ok _ _ _ Hvl) as [Hmn _]. cbn in Hmn.
  pose proof (variant_lengths_variant _ _ Hvl) as Hvar.
  unfold match_, match_fuel.
  set (fuel := (List.length target + List.length [piece; lit])%nat).
  assert (Hfuel : fuel = S (S (List.length target))) by (unfold fuel; simpl; lia).
  assert (Hbody :
    loop_body fuel target [piece; lit] initial
    = ('(matched, ti) <-
         while (scan_cond target) (scan_body target (Some lit)) fuel (false, mn) ;;
       Ret (State ti (if matched then 2 else 1) matched))).
  { unfold loop_body. unfold initial at 1. cbn [piece_index].
    rewrite getitem_head. cbn [bind]. cbv zeta. rewrite Hvar.
    rewrite (collapse_before_literal fuel piece lit mn None Hvl Hlit). cbn [bind].
    unfold consume_run. cbn [run_piece_index run_minimum run_maximum run_next_piece].
    change (1 =? len [piece; lit]) with false. cbv iota zeta.
    unfold initial. cbn [target_index]. reflexivity. }
  replace (while (loop_cond target [piece; lit]) (loop_body fuel target [piece; lit])
             fuel initial)
    with (while (loop_cond target [piece; lit]) (loop_body fuel target [piece; lit])
            (S (S (List.length target))) initial)
    by (f_equal; symmetry; exact Hfuel).
  rewrite while_step by (apply loop_cond_initial; simpl; lia).
  rewrite Hbody.
  destruct (Z.leb_spec mn (len target)) as [Hle|Hgt].
  - pose proof (firstn_skipn (Z.to_nat mn) target) as Hsplit.
    set (done := firstn (Z.to_nat mn) target) in *.
    set (rest := skipn (Z.to_nat mn) target) in *.
    assert (Hdone : len done = mn).
    { unfold len, done. rewrite length_firstn. unfold len in Hle. lia. }
    rewrite <- Hsplit at 1 2. rewrite <- Hdone.
    rewrite scan_index_of
      by (rewrite <- Hsplit in Hfuel; rewrite List.length_app in Hfuel; lia).
    destruct (index_of lit rest) as [i|] eqn:Hi; cbn [bind].
    + rewrite while_exit by reflexivity. cbn [bind].
      unfold result_of. cbn [target_index piece_index].
      change (2 >=? len [piece; lit]) with true. rewrite andb_true_r.
      apply index_of_bound in Hi. f_equal.
      assert (Htl : len target = len done + len rest)
        by (rewrite <- Hsplit; apply len_app).
      unfold len in Htl.
      destruct (Nat.eqb_spec (S i) (List.length rest)).
      * apply geb_true. unfold len. lia.
      * apply geb_false. unfold len. lia.
    + rewrite while_exit by reflexivity. cbn [bind].
      unfold result_of. cbn [target_index piece_index].
      change (1 >=? len [piece; lit]) with false. apply f_equal, andb_false_r.
  - rewrite while_exit
      by (unfold scan_cond; cbn [fst snd negb andb]; apply Z.ltb_ge; lia).
    cbn [bind]. rewrite while_exit by reflexivity. cbn [bind].
    unfold result_of. cbn [target_index piece_index].
    change (1 >=? len [piece; lit]) with false.
    rewrite skipn_all2 by (unfold len in Hgt; lia).
    apply f_equal, andb_false_r.
Qed.

Lemma match_unbounded_then_literal_witness :
  match_ ["Action"; "Scope"; "Action"] ["*"; "Action"]
  = Ret (match index_of "Action" (skipn (Z.to_nat 0) ["Action"; "Scope"; "Action"]) with
         | Some i =>
             (S i =? List.length (skipn (Z.to_nat 0) ["Action"; "Scope"; "Action"]))%nat
         | None => false
         end).
Proof.
  apply (match_unbounded_then_literal ["Action"; "Scope"; "Action"] "*" "Action" 0);
    reflexivity.
Defined.

(** X12.  A variant symbol with a maximum before the last, literal piece
    takes exactly as many tokens as its maximum, whatever its minimum: the
    target is matched exactly when it has one token more than the maximum
    and that last token equals the literal.  A shorter target is not
    matched. *)
Theorem match_bounded_then_literal (target : list string) (piece lit : string)
    (mn mx : Z) :
  variant_lengths piece (variant_expression_match piece) = Ret (mn, Some mx) ->
  is_literal lit = true ->
  match_ target [piece; lit]
  = Ret (match nth_error target (Z.to_nat mx) with
         | Some t => String.eqb t lit && (List.length target =? S (Z.to_nat mx))%nat
         | None => false
         end).
Proof.
  intros Hvl Hlit.
  destruct target as [|t0 target0] eqn:Htarget.
  { rewrite match_nil_target. destruct (Z.to_nat mx); reflexivity. }
  rewrite <- Htarget.
  assert (Hlen : (0 < List.length target)%nat) by (subst target; simpl; lia).
  clear Htarget t0 target0.
  pose proof (variant_lengths_ok _ _ _ Hvl) as [_ Hmx]. cbn in Hmx.
  specialize (Hmx mx eq_refl).
  pose proof (variant_lengths_variant _ _ Hvl) as Hvar.
  assert (Hlit' := Hlit). unfold is_literal in Hlit'. apply negb_true_iff in Hlit'.
  unfold match_, match_fuel.
  set (fuel := (List.length target + List.length [piece; lit])%nat).
  assert (Hfuel : fuel = S (S (List.length target))) by (unfold fuel; simpl; lia).
  assert (Hbody : loop_body fuel target [piece; lit] initial = Ret (State mx 1 true)).
  { unfold loop_body. unfold initial at 1. cbn [piece_index].
    rewrite getitem_head. cbn [bind]. cbv zeta. rewrite Hvar.
    rewrite (collapse_before_literal fuel piece lit mn (Some mx) Hvl Hlit).
    cbn [bind]. unfold consume_run.
    cbn [run_piece_index run_minimum run_maximum run_next_piece].
    change (1 =? len [piece; lit]) with false. cbv iota zeta.
    unfold initial. cbn [target_index match_possible]. do 2 f_equal. lia. }
  replace (while (loop_cond target [piece; lit]) (loop_body fuel target [piece; lit])
             fuel initial)
    with (while (loop_cond target [piece; lit]) (loop_body fuel target [piece; lit])
            (S (S (List.length target))) initial)
    by (f_equal; symmetry; exact Hfuel).
  rewrite while_step by (apply loop_cond_initial; simpl; lia).
  rewrite Hbody. cbn [bind].
  destruct (Z.ltb_spec mx (len target)) as [Hlt|Hge].
  - rewrite while_step.
    2:{ unfold loop_cond. cbn [match_possible piece_index target_index andb].
        change (1 <? len [piece; lit]) with true. cbn [andb].
        apply Z.ltb_lt. exact Hlt. }
    destruct (getitem_in_range target mx) as (t & Hget & Hnth); [lia|].
    unfold loop_body at 1. cbn [piece_index target_index match_possible].
    change (getitem [piece; lit] 1) with (Ret lit). cbn [bind]. cbv zeta.
    rewrite Hlit', Hget, Hnth. cbn [bind].
    destruct (String.eqb t lit); cbn [andb bind].
    + rewrite while_exit by reflexivity. cbn [bind].
      unfold result_of. cbn [target_index piece_index].
      change (1 + 1 >=? len [piece; lit]) with true. rewrite andb_true_r.
      f_equal. unfold len in *.
      destruct (Nat.eqb_spec (List.length target) (S (Z.to_nat mx))).
      * apply geb_true. lia.
      * apply geb_false. lia.
    + rewrite while_exit by reflexivity. cbn [bind].
      unfold result_of. cbn [target_index piece_index].
      change (1 >=? len [piece; lit]) with false. apply f_equal, andb_false_r.
  - rewrite while_exit.
    2:{ unfold loop_cond. cbn [match_possible piece_index target_index andb].
        change (1 <? len [piece; lit]) with true. cbn [andb].
        apply Z.ltb_ge. exact Hge. }
    cbn [bind]. unfold result_of. cbn [target_index piece_index].
    change (1 >=? len [piece; lit]) with false. rewrite andb_false_r.
    replace (nth_error target (Z.to_nat mx)) with (@None string); [reflexivity|].
    symmetry. apply nth_error_None. unfold len in Hge. lia.
Qed.

Lemma match_bounded_then_literal_witness :
  match_ ["Action"] ["?"; "Action"]
  = Ret (match nth_error ["Action"] (Z.to_nat 1) with
         | Some t => String.eqb t "Action" && (List.length ["Action"] =? S (Z.to_nat 1))%nat
         | None => false
         end).
Proof.
  apply (match_bounded_then_literal ["Action"] "?" "Action" 0 1); reflexivity.
Defined.

(** ** What is left over when the target or the pattern is exhausted *)

(** X13.  After literal pieces that equal the whole target, the pattern
    must be exhausted too: pieces that are left are never looked at, so a
    symbol that could match no token, such as [*], makes the result [False].
    Likewise tokens that are left when the pattern is exhausted make the
    result [False]. *)
Theorem match_exhausted (lits rest : list string) :
  forallb is_literal lits = true ->
  match_ lits (lits ++ rest) = Ret (match rest with [] => true | _ :: _ => false end)
  /\ match_ (lits ++ rest) lits = Ret (match rest with [] => true | _ :: _ => false end).
Proof.
  intros Hlits. split.
  - rewrite <- (List.app_nil_r lits) at 1.
    rewrite cancel_literals by exact Hlits. apply match_nil_target.
  - rewrite <- (List.app_nil_r lits) at 2.
    rewrite cancel_literals by exact Hlits. apply match_nil_pattern.
Qed.

Lemma match_exhausted_witness :
  match_ ["Character"] (["Character"] ++ ["*"]) = Ret false
  /\ match_ (["Character"] ++ ["*"]) ["Character"] = Ret false.
Proof. apply (match_exhausted ["Character"] ["*"]). reflexivity. Defined.

(** X14.  Literal pieces that equal the start of the target, then one
    variant symbol as the last piece, with tokens left for it: the tokens
    that are left must be as many as the minimum at least, and exactly as
    many as the maximum when the symbol has one. *)
Theorem match_trailing_variant (lits rest : list string) (piece : string)
    (mn : Z) (mx : option Z) :
  forallb is_literal lits = true ->
  (0 < List.length rest)%nat ->
  variant_lengths piece (variant_expression_match piece) = Ret (mn, mx) ->
  match_ (lits ++ rest) (lits ++ [piece])
  = Ret ((mn <=? len rest)
         && match mx with
            | None => true
            | Some x => x =? len rest
            end).
Proof.
  intros Hlits Hrest Hvl. rewrite cancel_literals by exact Hlits.
  rewrite (match_single_variant rest piece mn mx Hrest).
  - rewrite Z.geb_leb. do 2 f_equal. destruct mx as [x|]; [|reflexivity].
    rewrite Z.geb_leb.
    destruct (Z.eqb_spec x (len rest)) as [->|Hne].
    + rewrite Z.leb_refl. reflexivity.
    + destruct (Z.leb_spec x (len rest)), (Z.leb_spec (len rest) x);
        try reflexivity; lia.
  - unfold is_literal. rewrite (variant_lengths_variant _ _ Hvl). reflexivity.
  - exact Hvl.
Qed.

Lemma match_trailing_variant_witness :
  match_ (["Character"] ++ ["Scope"; "Action"]) (["Character"] ++ ["?"])
  = Ret ((0 <=? len ["Scope"; "Action"])
         && (1 =? len ["Scope"; "Action"])).
Proof.
  apply (match_trailing_variant ["Character"] ["Scope"; "Action"] "?" 0 (Some 1));
    try reflexivity.
  simpl. lia.
Defined.

(** ** The sequence of variant symbols is maximal *)

(** X15.  The collapsing of lines 79-97 absorbs a maximal sequence: every
    piece from the one the main loop looks at up to the index it leaves is a
    variant symbol, and the piece at that index, when there is one, is a
    literal. *)
Theorem collapse_variants_maximal (fuel : nat) (pattern : list string)
    (st : state) (piece : string) (r : run) :
  (List.length pattern <= fuel)%nat ->
  0 <= piece_index st < len pattern ->
  getitem pattern (piece_index st) = Ret piece ->
  is_literal piece = false ->
  collapse_variants fuel pattern st piece (variant_expression_match piece) = Ret r ->
  piece_index st < run_piece_index r <= len pattern
  /\ (forall j, piece_index st <= j < run_piece_index r ->
                exists p, getitem pattern j = Ret p /\ is_literal p = false)
  /\ (run_piece_index r < len pattern ->
      exists lit, getitem pattern (run_piece_index r) = Ret lit
                  /\ is_literal lit = true).
Proof.
  intros Hfuel Hpi Hget Hvar Hrun.
  pose proof (collapse_variants_spec fuel pattern Hfuel st piece Hpi) as Hspec.
  rewrite Hrun in Hspec. destruct Hspec as (Hrpi & _ & Hlit).
  split; [exact Hrpi|]. split.
  - unfold collapse_variants in Hrun. cbv zeta in Hrun.
    destruct (variant_lengths piece (variant_expression_match piece))
      as [[minimum maximum]| |] eqn:Hvl; cbn [bind] in Hrun; try discriminate.
    pose proof (variant_lengths_ok _ _ _ Hvl) as [Hv1 Hv2]. cbn in Hv1, Hv2.
    destruct (piece_index st + 1 <? len pattern) eqn:Hnext.
    + apply Z.ltb_lt in Hnext.
      destruct (getitem pattern (piece_index st + 1)) as [np| |] eqn:Hnp;
        cbn [bind] in Hrun; try discriminate.
      pose proof (while_outcome (collapse_cond pattern) (collapse_body pattern piece)
                    (fun rs =>
                       collapse_inv pattern (piece_index st) rs
                       /\ forall j, piece_index st <= j < rs_piece_index rs ->
                                    exists p, getitem pattern j = Ret p
                                              /\ is_literal p = false)
                    (fun _ => True)) as Hout.
      specialize (Hout) with
        (fuel := fuel)
        (s := RunState (piece_index st + 1) np (variant_expression_match np)
                minimum maximum).
      destruct (while _ _ fuel _) as [rs| |]; cbn [bind] in Hrun; try discriminate.
      injection Hrun as <-. cbn [run_piece_index].
      apply Hout.
      * intros s [Hinv Hall] Hc.
        pose proof (collapse_body_spec pattern (piece_index st) piece s
                      (proj1 Hpi) Hinv Hc) as Hb.
        destruct (collapse_body pattern piece s) as [s'| |]; auto.
        destruct Hb as [Hinv' Hidx]. split; [exact Hinv'|].
        intros j Hj. destruct (Z.eq_dec j (rs_piece_index s)) as [->|Hne].
        -- destruct Hinv as (_ & _ & Hmo & Hnp').
           unfold collapse_cond in Hc. cbv zeta in Hc.
           apply andb_true_iff in Hc. destruct Hc as [Hlt Hv].
           apply Z.ltb_lt in Hlt. exists (rs_next_piece s).
           split; [apply Hnp'; exact Hlt|].
           unfold is_literal. rewrite <- Hmo, Hv. reflexivity.
        -- apply Hall. lia.
      * split.
        -- unfold collapse_inv. cbn. repeat split; auto; lia.
        -- cbn [rs_piece_index]. intros j Hj.
           assert (j = piece_index st) as -> by lia. eauto.
    + injection Hrun as <-. cbn [run_piece_index]. intros j Hj.
      assert (j = piece_index st) as -> by lia. eauto.
  - intros Hlt. destruct (Hlit Hlt) as (lit & _ & Hg & Hv).
    exists lit. split; [exact Hg|]. unfold is_literal. rewrite Hv. reflexivity.
Qed.

Lemma collapse_variants_maximal_witness :
  piece_index initial < run_piece_index (Run 3 (Some "Action") 3 (Some 3))
    <= len ["+"; "{2,3}"; "{,}"; "Action"]
  /\ (forall j,
         piece_index initial <= j < run_piece_index (Run 3 (Some "Action") 3 (Some 3)) ->
         exists p, getitem ["+"; "{2,3}"; "{,}"; "Action"] j = Ret p
                   /\ is_literal p = false)
  /\ (run_piece_index (Run 3 (Some "Action") 3 (Some 3))
        < len ["+"; "{2,3}"; "{,}"; "Action"] ->
      exists lit,
        getitem ["+"; "{2,3}"; "{,}"; "Action"]
          (run_piece_index (Run 3 (Some "Action") 3 (Some 3))) = Ret lit
        /\ is_literal lit = true).
Proof.
  apply (collapse_variants_maximal 4 ["+"; "{2,3}"; "{,}"; "Action"] initial "+"
           (Run 3 (Some "Action") 3 (Some 3)));
    try reflexivity; try (simpl; lia).
  split; [apply Z.le_refl|reflexivity].
Defined.

(** ** The turns of the main loop *)

(** X16.  The main loop takes no more turns than the pattern has pieces,
    however long the target is. *)
Theorem main_loop_turns_bound (target pattern : list string) :
  (main_loop_turns (List.length target + List.length pattern) target pattern
   <= List.length pattern)%nat.
Proof. apply match_fuel_outcome; lia. Qed.

(** ** A sequence of variant symbols at any place of a pattern *)

(** The collapsing at a state that stands before a variant symbol which
    range forms follow: it absorbs all of them, at every place of the
    pattern. *)
Lemma collapse_variants_ranges (fuel : nat) (done : list string) (first : string)
    (b0 : bounds) (ranges : list string) (bs : list bounds) (rest : list string)
    (st : state) :
  piece_index st = len done ->
  (List.length ranges <= fuel)%nat ->
  variant_lengths first (variant_expression_match first) = Ret b0 ->
  map range_bounds ranges = map Some bs ->
  match rest with
  | [] => True
  | lit :: _ => is_literal lit = true
  end ->
  exists r,
    collapse_variants fuel (done ++ first :: ranges ++ rest) st first
      (variant_expression_match first) = Ret r
    /\ run_piece_index r = len done + 1 + len ranges
    /\ (run_minimum r, run_maximum r) = summed_bounds (b0 :: bs).
Proof.
  intros Hpi Hfuel Hfirst Hbs Hrest.
  unfold collapse_variants. rewrite Hfirst. cbn [bind].
  destruct b0 as [mn mx]. rewrite Hpi.
  destruct ranges as [|r ranges].
  - destruct bs as [|b bs]; [|discriminate]. cbn [app].
    destruct rest as [|lit rest].
    + replace (len done + 1 <? len (done ++ [first])%list) with false
        by (symmetry; apply Z.ltb_ge; rewrite len_app_one; lia).
      eexists. split; [reflexivity|].
      cbn [run_piece_index run_minimum run_maximum]. split.
      * unfold len. cbn [List.length]. lia.
      * rewrite <- fold_sum_step. reflexivity.
    + replace (done ++ first :: lit :: rest)%list
        with ((done ++ [first]) ++ lit :: rest)%list
        by (rewrite <- List.app_assoc; reflexivity).
      rewrite <- (len_app_one done first).
      replace (len (done ++ [first]) <? len ((done ++ [first]) ++ lit :: rest)) with true
        by (symmetry; apply Z.ltb_lt; apply len_app_lt).
      rewrite getitem_app. cbn [bind]. rewrite while_exit.
      * cbn [bind]. eexists. split; [reflexivity|].
        cbn [run_piece_index run_minimum run_maximum rs_piece_index rs_minimum rs_maximum].
        split.
        -- rewrite len_app_one. unfold len. cbn [List.length]. lia.
        -- rewrite <- fold_sum_step. reflexivity.
      * unfold collapse_cond. cbn [rs_piece_index rs_next_piece rs_mo].
        unfold is_literal in Hrest. apply negb_true_iff in Hrest.
        rewrite Hrest. apply andb_false_r.
  - destruct bs as [|b bs]; [discriminate|].
    cbn [map] in Hbs. injection Hbs as Hr Hbs. cbn [app].
    replace (done ++ first :: r :: ranges ++ rest)%list
      with ((done ++ [first]) ++ r :: ranges ++ rest)%list
      by (rewrite <- List.app_assoc; reflexivity).
    rewrite <- (len_app_one done first).
    replace (len (done ++ [first]) <? len ((done ++ [first]) ++ r :: ranges ++ rest))
      with true by (symmetry; apply Z.ltb_lt; apply len_app_lt).
    rewrite getitem_app. cbn [bind].
    destruct (collapse_ranges_loop first ranges bs (done ++ [first])%list r b rest mn mx
                (fuel - List.length (r :: ranges)) Hr Hbs Hrest)
      as (rs & Hw & Hrpi & Hsums).
    replace (List.length (r :: ranges) + (fuel - List.length (r :: ranges)))%nat
      with fuel in Hw by lia.
    rewrite Hw. cbn [bind]. eexists. split; [reflexivity|].
    cbn [run_piece_index run_minimum run_maximum]. split.
    + rewrite Hrpi, len_app_one. lia.
    + rewrite Hsums, fold_sum_step. reflexivity.
Qed.

(** The turn of the main loop at a piece that is a variant symbol. *)
Lemma loop_body_variant (fuel : nat) (target pattern : list string) (st : state)
    (piece : string) :
  getitem pattern (piece_index st) = Ret piece ->
  is_variant piece (variant_expression_match piece) = true ->
  loop_body fuel target pattern st
  = (r <- collapse_variants fuel pattern st piece (variant_expression_match piece) ;;
     consume_run fuel target pattern st r).
Proof.
  intros Hget Hvar. unfold loop_body. rewrite Hget. cbn [bind]. cbv zeta.
  rewrite Hvar. reflexivity.
Qed.

(** C1, amended.  At every place of a pattern and at every state of the
    main loop that stands there, for a sequence of variant symbols whose
    first symbol is any variant symbol and whose further symbols are range
    forms, followed by a literal or by nothing: the collapsing absorbs the
    whole sequence and computes these bounds, and the turn of the main loop
    goes on with them.  The minimum is the sum of the minimums; the maximum
    is the sum of the maximums that are present, and there is no maximum
    only when no symbol of the sequence has one. *)
Theorem run_constraint_of_ranges (fuel : nat) (target done : list string)
    (first : string) (b0 : bounds) (ranges : list string) (bs : list bounds)
    (rest : list string) (st : state) :
  piece_index st = len done ->
  (List.length ranges <= fuel)%nat ->
  variant_lengths first (variant_expression_match first) = Ret b0 ->
  map range_bounds ranges = map Some bs ->
  match rest with
  | [] => True
  | lit :: _ => is_literal lit = true
  end ->
  exists r,
    collapse_variants fuel (done ++ first :: ranges ++ rest) st first
      (variant_expression_match first) = Ret r
    /\ run_piece_index r = len done + 1 + len ranges
    /\ (run_minimum r, run_maximum r) = summed_bounds (b0 :: bs)
    /\ loop_body fuel target (done ++ first :: ranges ++ rest) st
       = consume_run fuel target (done ++ first :: ranges ++ rest) st r.
Proof.
  intros Hpi Hfuel Hfirst Hbs Hrest.
  destruct (collapse_variants_ranges fuel done first b0 ranges bs rest st
              Hpi Hfuel Hfirst Hbs Hrest) as (r & Hrun & Hrpi & Hsum).
  exists r. repeat (split; [assumption|]).
  rewrite (loop_body_variant fuel target _ st first).
  - rewrite Hrun. reflexivity.
  - rewrite Hpi. apply getitem_app.
  - apply (variant_lengths_variant first b0 Hfirst).
Qed.

Lemma run_constraint_of_ranges_witness :
  exists r,
    collapse_variants 4 (["Character"] ++ "+" :: ["{1,2}"; "{3,}"] ++ ["Action"])
      (State 1 1 true) "+" (variant_expression_match "+") = Ret r
    /\ run_piece_index r = len ["Character"] + 1 + len ["{1,2}"; "{3,}"]
    /\ (run_minimum r, run_maximum r)
       = summed_bounds [(1, @None Z); (1, Some 2); (3, None)]
    /\ loop_body 4 ["Character"; "Scope"]
         (["Character"] ++ "+" :: ["{1,2}"; "{3,}"] ++ ["Action"]) (State 1 1 true)
       = consume_run 4 ["Character"; "Scope"]
           (["Character"] ++ "+" :: ["{1,2}"; "{3,}"] ++ ["Action"]) (State 1 1 true) r.
Proof.
  apply (run_constraint_of_ranges 4 ["Character"; "Scope"] ["Character"] "+" (1, None)
           ["{1,2}"; "{3,}"] [(1, Some 2); (3, None)] ["Action"] (State 1 1 true)).
  - reflexivity.
  - simpl. lia.
  - reflexivity.
  - reflexivity.
  - reflexivity.
Defined.






(** ** An invalid range at any place of a pattern *)

(** A loop that reaches a state where its body raises an exception raises
    it, when it does not run out of fuel before. *)
Lemma reaches_raise {St : Type} (cond : St -> bool) (body : St -> outcome St)
    (s0 s : St) (e : exception) :
  reaches cond body s0 s -> cond s = true -> body s = Raise e ->
  forall fuel,
    while cond body fuel s0 = Raise e \/ while cond body fuel s0 = OutOfFuel.
Proof.
  intros Hreach Hcond Hbody.
  induction Hreach as [s|s s1 s2 Hc Hb Hreach IH]; intros fuel.
  - destruct fuel as [|fuel]; cbn [while]; rewrite Hcond; [right; reflexivity|].
    rewrite Hbody. left. reflexivity.
  - destruct fuel as [|fuel]; cbn [while]; rewrite Hc; [right; reflexivity|].
    rewrite Hb. cbn [bind]. apply IH; assumption.
Qed.

(** The collapsing loop over variant symbols that are resolved, up to an
    invalid range: the turn that looks at the invalid range raises
    [ValueError]. *)
Lemma collapse_until_invalid (first bad : string) (rest more : list string) :
  invalid_range bad = true ->
  forall (done : list string) (cur : string) (tail : list string)
         (mn : Z) (mx : option Z) (n : nat),
    forallb (fun piece => negb (is_literal piece) && resolves first piece) more = true ->
    (more ++ [bad])%list = cur :: tail ->
    while (collapse_cond (done ++ more ++ bad :: rest))
      (collapse_body (done ++ more ++ bad :: rest) first)
      (List.length more + S n)
      (RunState (len done) cur (variant_expression_match cur) mn mx)
    = Raise ValueError.
Proof.
  intros Hbad.
  induction more as [|p more IH]; intros done cur tail mn mx n Hok Hcur.
  - cbn [app] in Hcur. injection Hcur as <- _. cbn [app List.length Nat.add].
    assert (Hb := Hbad). unfold invalid_range in Hb.
    destruct (variant_expression_match bad) as [mo|] eqn:Hmo; [|discriminate].
    rewrite while_step.
    2:{ unfold collapse_cond. cbn [rs_piece_index rs_next_piece rs_mo].
        unfold is_variant. rewrite orb_true_r, andb_true_r.
        apply Z.ltb_lt. apply len_app_lt. }
    unfold collapse_body. cbn [rs_mo]. unfold variant_lengths.
    rewrite (invalid_range_value_error bad mo Hmo Hbad). reflexivity.
  - cbn [app] in Hcur. injection Hcur as <- _.
    cbn [forallb] in Hok. apply andb_true_iff in Hok. destruct Hok as [Hp Hok].
    apply andb_true_iff in Hp. destruct Hp as [Hvar Hres].
    apply negb_true_iff in Hvar. unfold is_literal in Hvar.
    apply negb_false_iff in Hvar.
    unfold resolves in Hres.
    destruct (variant_lengths first (variant_expression_match p)) as [b| |] eqn:Hlen;
      try discriminate.
    destruct (more ++ [bad])%list as [|cur' tail'] eqn:Hm.
    { destruct more; discriminate Hm. }
    assert (Hpat : (done ++ (p :: more) ++ bad :: rest)%list
                   = ((done ++ [p]) ++ more ++ bad :: rest)%list).
    { rewrite <- List.app_assoc. reflexivity. }
    assert (Hget : getitem ((done ++ [p]) ++ more ++ bad :: rest) (len (done ++ [p]))
                   = Ret cur').
    { replace (more ++ bad :: rest)%list with (cur' :: tail' ++ rest)%list.
      - apply getitem_app.
      - change (bad :: rest) with ([bad] ++ rest)%list.
        rewrite List.app_assoc, Hm. reflexivity. }
    assert (Hlt : len (done ++ [p]) < len ((done ++ [p]) ++ more ++ bad :: rest)).
    { unfold len. rewrite !List.length_app. cbn [List.length]. lia. }
    rewrite Hpat. cbn [List.length Nat.add].
    rewrite while_step.
    2:{ unfold collapse_cond. cbn [rs_piece_index rs_next_piece rs_mo].
        rewrite Hvar, andb_true_r. apply Z.ltb_lt.
        rewrite len_app_one in Hlt. lia. }
    unfold collapse_body at 1.
    cbn [rs_piece_index rs_next_piece rs_mo rs_minimum rs_maximum].
    rewrite Hlen. cbn [bind _sum_variant_lengths fold_left].
    destruct (sum_step (mn, mx) b) as [mn' mx'].
    rewrite <- (len_app_one done p).
    replace (len (done ++ [p]) <? len ((done ++ [p]) ++ more ++ bad :: rest)) with true
      by (symmetry; apply Z.ltb_lt; exact Hlt).
    rewrite Hget. cbn [bind].
    apply (IH (done ++ [p])%list cur' tail' mn' mx' n Hok eq_refl).
Qed.

(** The turn of the main loop that stands before a sequence of variant
    symbols with an invalid range, the symbols before which are resolved,
    raises [ValueError]. *)
Lemma loop_body_run_invalid (fuel : nat) (target done run : list string)
    (bad : string) (rest : list string) (st : state) :
  piece_index st = len done ->
  (List.length run <= fuel)%nat ->
  resolved_run run = true ->
  invalid_range bad = true ->
  loop_body fuel target (done ++ run ++ bad :: rest) st = Raise ValueError.
Proof.
  intros Hpi Hfuel Hrun Hbad.
  destruct run as [|first more].
  - apply (loop_body_invalid_range fuel target _ st bad); [|exact Hbad].
    rewrite Hpi. apply getitem_app.
  - cbn [resolved_run] in Hrun. apply andb_true_iff in Hrun.
    destruct Hrun as [Hfirst Hmore]. unfold resolves in Hfirst.
    destruct (variant_lengths first (variant_expression_match first))
      as [[mn mx]| |] eqn:Hlen; try discriminate.
    cbn [app].
    rewrite (loop_body_variant fuel target _ st first).
    2:{ rewrite Hpi. apply getitem_app. }
    2:{ apply (variant_lengths_variant first (mn, mx) Hlen). }
    unfold collapse_variants. rewrite Hlen. cbn [bind]. rewrite Hpi.
    destruct (more ++ [bad])%list as [|cur tail] eqn:Hm.
    { destruct more; discriminate Hm. }
    assert (Hpat : (done ++ first :: more ++ bad :: rest)%list
                   = ((done ++ [first]) ++ more ++ bad :: rest)%list).
    { rewrite <- List.app_assoc. reflexivity. }
    assert (Hget : getitem ((done ++ [first]) ++ more ++ bad :: rest)
                     (len (done ++ [first])) = Ret cur).
    { replace (more ++ bad :: rest)%list with (cur :: tail ++ rest)%list.
      - apply getitem_app.
      - change (bad :: rest) with ([bad] ++ rest)%list.
        rewrite List.app_assoc, Hm. reflexivity. }
    assert (Hlt : len (done ++ [first]) < len ((done ++ [first]) ++ more ++ bad :: rest)).
    { unfold len. rewrite !List.length_app. cbn [List.length]. lia. }
    rewrite Hpat, <- (len_app_one done first).
    replace (len (done ++ [first]) <? len ((done ++ [first]) ++ more ++ bad :: rest))
      with true by (symmetry; apply Z.ltb_lt; exact Hlt).
    rewrite Hget. cbn [bind].
    cbn [List.length] in Hfuel.
    replace fuel with (List.length more + S (fuel - S (List.length more)))%nat at 1 by lia.
    rewrite (collapse_until_invalid first bad rest more Hbad (done ++ [first])%list
               cur tail mn mx _ Hmore Hm).
    reflexivity.
Qed.

(** [match] raises [ValueError] when the main loop reaches, with the
    target not exhausted, the start of a sequence of variant symbols with an
    invalid range, the symbols before which are resolved. *)
Lemma match_reaches_invalid_range (target done run : list string) (bad : string)
    (rest : list string) (st : state) :
  resolved_run run = true ->
  invalid_range bad = true ->
  reaches (loop_cond target (done ++ run ++ bad :: rest))
    (loop_body (List.length target + List.length (done ++ run ++ bad :: rest))
       target (done ++ run ++ bad :: rest))
    initial st ->
  loop_cond target (done ++ run ++ bad :: rest) st = true ->
  piece_index st = len done ->
  match_ target (done ++ run ++ bad :: rest) = Raise ValueError.
Proof.
  intros Hrun Hbad Hreach Hcond Hpi.
  set (pattern := (done ++ run ++ bad :: rest)%list) in *.
  set (fuel := (List.length target + List.length pattern)%nat) in *.
  assert (Hbody : loop_body fuel target pattern st = Raise ValueError).
  { apply loop_body_run_invalid; try assumption.
    unfold fuel, pattern. rewrite !List.length_app. lia. }
  pose proof (match_outcome target pattern) as Hout.
  unfold match_, match_fuel in *. fold fuel in Hout |- *.
  destruct (reaches_raise _ _ initial st ValueError Hreach Hcond Hbody fuel) as [Hw|Hw];
    rewrite Hw in Hout |- *; [reflexivity|contradiction].
Qed.

(** The same after literal pieces that equal the tokens at the same places
    of a target with one token more at least. *)
Lemma match_prefix_invalid_range (lits run : list string) (bad : string)
    (rest : list string) (t : string) (trest : list string) :
  forallb is_literal lits = true ->
  resolved_run run = true ->
  invalid_range bad = true ->
  match_ (lits ++ t :: trest) (lits ++ run ++ bad :: rest) = Raise ValueError.
Proof.
  intros Hlits Hrun Hbad.
  rewrite (cancel_literals lits (t :: trest) (run ++ bad :: rest) Hlits).
  apply (match_reaches_invalid_range (t :: trest) [] run bad rest initial Hrun Hbad).
  - apply reaches_here.
  - apply loop_cond_initial; cbn [app List.length]; [lia|].
    rewrite List.length_app. cbn [List.length]. lia.
  - reflexivity.
Qed.

(** C3, amended.  [match] raises [ValueError] whenever a turn of the main
    loop evaluates a range form whose maximum is less than its minimum: the
    main loop reaches, with the target not exhausted, the start of the
    sequence of variant symbols the range form belongs to, and the symbols
    of the sequence before it are resolved without an exception.  So it
    does when the pieces before that sequence are literals equal to the
    tokens at the same places and the target has one token more at least.
    The target matters: with an empty target [match] returns [False] on the
    same pattern. *)
Theorem invalid_range_raises (target done run : list string) (bad : string)
    (rest : list string) (st : state) :
  resolved_run run = true ->
  invalid_range bad = true ->
  (reaches (loop_cond target (done ++ run ++ bad :: rest))
     (loop_body (List.length target + List.length (done ++ run ++ bad :: rest))
        target (done ++ run ++ bad :: rest))
     initial st ->
   loop_cond target (done ++ run ++ bad :: rest) st = true ->
   piece_index st = len done ->
   match_ target (done ++ run ++ bad :: rest) = Raise ValueError)
  /\ (forallb is_literal done = true ->
      forall (t : string) (trest : list string),
        match_ (done ++ t :: trest) (done ++ run ++ bad :: rest) = Raise ValueError)
  /\ match_ [] (done ++ run ++ bad :: rest) = Ret false.
Proof.
  intros Hrun Hbad. split; [|split].
  - apply match_reaches_invalid_range; assumption.
  - intros Hlits t trest. apply match_prefix_invalid_range; assumption.
  - rewrite match_nil_target.
    destruct (done ++ run ++ bad :: rest)%list eqn:Hp; [|reflexivity].
    destruct done; [destruct run|]; discriminate Hp.
Qed.

Lemma invalid_range_raises_witness :
  match_ ["Character"; "Scope"; "Action"] (["*"; "Scope"] ++ ["?"] ++ "{3,1}" :: [])
  = Raise ValueError
  /\ match_ [] (["*"; "Scope"] ++ ["?"] ++ "{3,1}" :: []) = Ret false.
Proof.
  destruct (invalid_range_raises ["Character"; "Scope"; "Action"] ["*"; "Scope"] ["?"]
              "{3,1}" [] (State 2 2 true) eq_refl eq_refl) as (Hraise & _ & Hempty).
  split; [|exact Hempty].
  apply Hraise.
  - apply (reaches_turn _ _ initial (State 2 2 true) (State 2 2 true)).
    + reflexivity.
    + reflexivity.
    + apply reaches_here.
  - reflexivity.
  - reflexivity.
Defined.

(** The invalid range [{3,1}] where it is evaluated after a resolved symbol
    and after a scan; a symbol absorbed after a range form raises
    [KeyError] before the invalid range is looked at. *)
Example invalid_range_evaluated :
  match_ ["a"] ["?"; "{3,1}"] = Raise ValueError
  /\ match_ ["a"; "x"; "b"] ["*"; "x"; "{3,1}"] = Raise ValueError
  /\ match_ ["a"] ["{1,2}"; "*"; "{3,1}"] = Raise KeyError.
Proof. repeat split; reflexivity. Qed.

(** A bound of more than 4300 digits: [int] raises [ValueError]. *)
Lemma range_beyond_int_limit (target : list string) (m n : N) :
  (0 < List.length target)%nat ->
  (int_limit <= n)%N ->
  match_ target [open_range_piece n] = Raise ValueError
  /\ ((m <= n)%N -> match_ target [range_piece m n] = Raise ValueError).
Proof.
  intros Ht Hn.
  assert (Hlt : (n <? int_limit)%N = false) by (apply N.ltb_ge; exact Hn).
  split; [|intros Hmn]; apply match_single_raise; try exact Ht.
  - apply (matched_is_variant _ _ (open_range_piece_match n)).
  - rewrite open_range_piece_lengths, Hlt. reflexivity.
  - apply (matched_is_variant _ _ (range_piece_match m n)).
  - rewrite (range_piece_lengths m n Hmn), Hlt. reflexivity.
Qed.
